(** * verde.model_selection: train/test splitting and cross-validation

    A shallow embedding of [verde/model_selection.py].  NumPy arrays are
    references into a store of buffers, so that views, copies and aliasing
    are visible; Python exceptions are an explicit outcome that leaves the
    store in place; generators are iterators resumed one fold at a time;
    the scikit-learn splitters, the estimator and the client are
    collaborators passed in as values.  For the docstring of
    [train_test_split], which fixes the seed, NumPy's seeded generator and
    scikit-learn's shuffle splitter are written out as well. *)

From Stdlib Require Import ZArith Lia.
From Stdlib Require PrimFloat FloatOps Uint63.
From stdpp Require Import base option list strings gmap.

Open Scope Z_scope.

(** ** Exceptions and the state-and-exception monad *)

(** The Python exceptions that can surface from this module.  [Failure c]
    stands for whatever a collaborator (estimator, splitter, client) raises;
    [SystemError] is the outcome of a run that the embedding cannot follow:
    reading a buffer that the store does not hold, which a well-formed store
    never produces, or a loop of an outside library cut off at its bound. *)
Inductive exn : Type :=
  | IndexError
  | TypeError
  | ValueError
  | AttributeError
  | StopIteration
  | Failure (code : nat)
  | SystemError.

Inductive res (A : Type) : Type :=
  | Ok (a : A)
  | Raise (e : exn).
Arguments Ok {A} a.
Arguments Raise {A} e.

#[global] Instance res_ret : MRet res := λ A a, Ok a.
#[global] Instance res_bind : MBind res := λ A B f m,
  match m with
  | Ok a => f a
  | Raise e => Raise e
  end.

(** A computation over a state [S]: it ends with a value or an exception,
    and in both cases with a state (an exception does not undo effects). *)
Definition M (S A : Type) : Type := S → res A * S.

#[global] Instance M_ret {S} : MRet (M S) := λ A a s, (Ok a, s).
#[global] Instance M_bind {S} : MBind (M S) := λ A B f m s,
  match m s with
  | (Ok a, s') => f a s'
  | (Raise e, s') => (Raise e, s')
  end.

Definition raise {S A} (e : exn) : M S A := λ s, (Raise e, s).

(** A pure, fallible step inside a stateful computation. *)
Definition lift {S A} (r : res A) : M S A := λ s, (r, s).

(** ** Python values *)

(** Keyword-argument values, as far as this module and the splitters look
    at them; a float is an IEEE 754 binary64 number. *)
Inductive pyobj : Type :=
  | PyNone
  | PyBool (b : bool)
  | PyInt (z : Z)
  | PyFloat (f : PrimFloat.float)
  | PyObject (id : nat).

(** [f(name=v, **kwargs)]: Python refuses a keyword given twice. *)
Definition keywords (name : string) (v : pyobj) (kwargs : gmap string pyobj)
  : res (gmap string pyobj) :=
  match kwargs !! name with
  | Some _ => Raise TypeError
  | None => Ok (<[name := v]> kwargs)
  end.

(** A Python iterator over values of type [A], driven in an outside world of
    state [X].  Resumed, it yields a value and is left advanced, or it is
    exhausted, or it raises; each time it may change the outside state.
    [Stop] is a generator that returns; an iterator object whose [__next__]
    raises [StopIteration] by itself is [Throw StopIteration], which
    [next] and a [for] loop cannot tell from [Stop].  The type being
    inductive, an iterator is exhausted after finitely many resumptions, in
    whatever states it is resumed. *)
Inductive iterator (X A : Type) : Type :=
  | Iterator (resume : X → advance X A)
with advance (X A : Type) : Type :=
  | Yield (a : A) (rest : iterator X A) (x : X)
  | Stop (x : X)
  | Throw (e : exn) (x : X).
Arguments Iterator {X A} resume.
Arguments Yield {X A} a rest x.
Arguments Stop {X A} x.
Arguments Throw {X A} e x.

Scheme iterator_advance_ind := Induction for iterator Sort Prop
  with advance_iterator_ind := Induction for advance Sort Prop.

Definition resume {X A} (it : iterator X A) : X → advance X A :=
  match it with Iterator r => r end.

(** [next(it)] *)
Definition next {X A} (it : iterator X A) : M X A := λ x,
  match resume it x with
  | Yield a _ x' => (Ok a, x')
  | Stop x' => (Raise StopIteration, x')
  | Throw e x' => (Raise e, x')
  end.

(** The iterator over a list, which leaves the outside state alone. *)
Fixpoint iter {X A} (l : list A) : iterator X A :=
  Iterator (λ x, match l with
                 | [] => Stop x
                 | a :: l => Yield a (iter l) x
                 end).

(** ** NumPy arrays *)

(** An array object is a window on a buffer of the store.  Two arrays alias
    when they name the same buffer. *)
Record ndarray : Type := mk_ndarray { buffer : nat; shape : list nat }.

(** [a.size]: the number of elements, the product of the dimensions. *)
#[global] Instance ndarray_size : Size ndarray := λ a, foldr Nat.mul 1%nat (shape a).

(** [a.ravel()]: the one-dimensional view of a C-contiguous array; no buffer
    is created. *)
Definition ravel (a : ndarray) : ndarray :=
  {| buffer := buffer a; shape := [size a] |}.

(** [np.arange(n)] as an index sequence. *)
Definition arange (n : nat) : list Z := Z.of_nat <$> seq 0 n.

(** What [np.asarray] sees in an object: its shape as an array-like, which
    is [()] for a number and for any object that is not a sequence. *)
Class ArrayLike (A : Type) : Type := shape_of : A → list nat.

(** Python numbers are scalars. *)
#[global] Instance Z_like : ArrayLike Z := λ _, [].

(** The array that [np.asarray] makes of a Python list: the entries of the
    list in order along a new first axis, each of shape [entry_shape].
    [len(a)] is the number of entries and [a[k]] is entry [k]. *)
Record stacked (A : Type) : Type :=
  mk_stacked { entries : list A; entry_shape : list nat }.
Arguments mk_stacked {A} entries entry_shape.
Arguments entries {A} s.
Arguments entry_shape {A} s.

(** [np.asarray(l)] for a Python list [l].  The entries have to agree in
    shape: NumPy raises [ValueError] on a ragged list.  The empty list
    gives the empty array of shape (0,). *)
Definition asarray {A} `{!ArrayLike A} (l : list A) : res (stacked A) :=
  match l with
  | [] => Ok {| entries := []; entry_shape := [] |}
  | a :: rest =>
      if forallb (λ b, bool_decide (shape_of b = shape_of a)) rest
      then Ok {| entries := l; entry_shape := shape_of a |}
      else Raise ValueError
  end.

(** One entry of an integer index into an axis of length [n]: Python counts
    negative entries from the end and rejects the rest. *)
Definition normalize_index (n : nat) (i : Z) : res nat :=
  if decide (0 ≤ i < Z.of_nat n) then Ok (Z.to_nat i)
  else if decide (- Z.of_nat n ≤ i < 0) then Ok (Z.to_nat (i + Z.of_nat n))
  else Raise IndexError.

(** A tuple whose slots hold an array or [None]. *)
Abbreviation tuple_t := (list (option ndarray)).

(** A tuple of that kind, or [None] in its place. *)
Abbreviation arrays_t := (option (list (option ndarray))).

Definition is_none {A} (o : option A) : bool :=
  match o with None => true | Some _ => false end.

(** What a caller may pass for [data] and [weights]: nothing, one array, or
    a tuple. *)
Inductive pyarg : Type :=
  | ArgNone
  | ArgArray (a : ndarray)
  | ArgTuple (items : tuple_t).

Section Store.
Context {T : Type}.

(** The store: buffer number [l] holds the cells [h !! l], listed in
    row-major (C) order.  Buffers are never freed. *)
Abbreviation heap := (list (list T)).

Definition read_cell (cells : list T) (n : nat) (i : Z) : res T :=
  k ← normalize_index n i;
  match cells !! k with
  | Some x => Ok x
  | None => Raise SystemError
  end.

(** [a[index]] for a one-dimensional [a] and an integer index array:
    advanced indexing, which always builds a new buffer. *)
Definition getitem (a : ndarray) (index : list Z) : M heap ndarray := λ h,
  match shape a, h !! buffer a with
  | [n], Some cells =>
      match mapM (read_cell cells n) index with
      | Ok picked =>
          (Ok {| buffer := length h; shape := [length index] |}, h ++ [picked])
      | Raise e => (Raise e, h)
      end
  | _, _ => (Raise SystemError, h)
  end.

(** ** select *)

(** [i.ravel()[index]] for one slot [i] of the tuple. *)
Definition select_item (index : list Z) (i : option ndarray)
  : M heap (option ndarray) :=
  match i with
  | Some a => r ← getitem (ravel a) index; mret (Some r)
  | None => raise AttributeError
  end.

Definition select (arrays : arrays_t) (index : list Z) : M heap arrays_t :=
  match arrays with
  | None => mret arrays
  | Some items =>
      if existsb is_none items then mret arrays
      else r ← mapM (select_item index) items; mret (Some r)
  end.

(** [tuple(select(i, index) for i in args)] for the three-tuple [args]. *)
Definition select_args (args : tuple_t * tuple_t * tuple_t) (index : list Z)
  : M heap (arrays_t * arrays_t * arrays_t) :=
  let '(coordinates, data, weights) := args in
  c ← select (Some coordinates) index;
  d ← select (Some data) index;
  w ← select (Some weights) index;
  mret (c, d, w).

End Store.

(** ** Collaborators *)

(** The world a call runs in: the NumPy store and the state [X] of
    everything outside this module (random generators, the estimator's
    fitted parameters, the client's queue). *)
Record world (T X : Type) : Type := mk_world { np : list (list T); ext : X }.
Arguments mk_world {T X} np ext.
Arguments np {T X} w.
Arguments ext {T X} w.

Definition on_np {T X A} (m : M (list (list T)) A) : M (world T X) A := λ w,
  let (r, h) := m (np w) in (r, {| np := h; ext := ext w |}).

Definition on_ext {T X A} (m : M X A) : M (world T X) A := λ w,
  let (r, x) := m (ext w) in (r, {| np := np w; ext := x |}).

(** A cross-validation generator: [split(indices)] is an iterator over
    pairs of index arrays (train, test).  It sees the index sequence and the
    outside state, not the store. *)
Record cv_t (X : Type) : Type :=
  { split : list Z → iterator X (list Z * list Z) }.
Arguments split {X} c indices.

(** An estimator: [fit(coordinates, data, weights)] and
    [score(coordinates, data, weights)]. *)
Record estimator_t (T X Sc : Type) : Type :=
  { fit : arrays_t → arrays_t → arrays_t → M (world T X) ();
    score : arrays_t → arrays_t → arrays_t → M (world T X) Sc }.
Arguments fit {T X Sc} e coordinates data weights.
Arguments score {T X Sc} e coordinates data weights.

(** What a client hands back: the score itself or a handle on it. *)
Inductive work_result (Sc : Type) : Type :=
  | Value (s : Sc)
  | Future (handle : nat).
Arguments Value {Sc} s.
Arguments Future {Sc} handle.

(** To [np.asarray] a score is what it is and a handle is an opaque
    object. *)
#[global] Instance work_result_like {Sc} `{!ArrayLike Sc} : ArrayLike (work_result Sc) :=
  λ r, match r with
       | Value s => shape_of s
       | Future _ => []
       end.

(** A client: [submit(callable, *args)], here given the call to make. *)
Record client_t (T X Sc : Type) : Type :=
  { submit : M (world T X) Sc → M (world T X) (work_result Sc) }.
Arguments submit {T X Sc} c work.

(** ** verde.base and verde.utils *)

Module Base.

(** A bare array becomes a one-element tuple, [None] a tuple holding the
    absent marker. *)
Definition check_data (data : pyarg) : tuple_t :=
  match data with
  | ArgTuple items => items
  | ArgArray a => [Some a]
  | ArgNone => [None]
  end.

(** All slots hold an array of [n] elements. *)
Definition all_of_size (n : nat) (items : tuple_t) : bool :=
  forallb (λ i, match i with Some a => Nat.eqb (size a) n | None => false end) items.

(** Modelled from the spec: [check_fit_input] of verde/base.py, the input
    normalizer, which is not among the sources; this is the spec's
    section 4.1 and data model, for the call with [unpack=False].  The
    data becomes a tuple with one entry per component; the weights are
    either absent in every slot or mirror the data; a validation error is
    raised when the component counts or the flattened lengths disagree. *)
Definition check_fit_input (coordinates : list ndarray) (data weights : pyarg)
  : res (tuple_t * tuple_t * tuple_t) :=
  let data := check_data data in
  let weights := check_data weights in
  let n := match coordinates with c :: _ => size c | [] => 0%nat end in
  if negb (all_of_size n (Some <$> coordinates)) then Raise ValueError
  else if negb (all_of_size n data) then Raise ValueError
  else if forallb is_none weights then Ok (Some <$> coordinates, data, weights)
  else if negb (Nat.eqb (length weights) (length data)) then Raise ValueError
  else if negb (all_of_size n weights) then Raise ValueError
  else Ok (Some <$> coordinates, data, weights).

End Base.

Module Utils.

(** Modelled from the spec: [DummyClient] of verde/utils.py, the immediate
    backend, which is not among the sources; the spec's section 4.5: it
    calls the callable synchronously and returns its result directly. *)
Definition DummyClient {T X Sc} : client_t T X Sc :=
  {| submit := λ work, s ← work; mret (Value s) |}.

End Utils.

(** ** numpy.random and sklearn.model_selection *)

(** NumPy's [RandomState], after randomkit.c and mtrand.pyx: the Mersenne
    Twister MT19937 and the shuffle built on it. *)
Module Mtrand.

(** [rk_state]: 624 words of 32 bits and the position of the next word to
    give out. *)
Record rk_state : Type := mk_rk_state { key : list Z; pos : nat }.

Definition RK_STATE_LEN : nat := 624.
Definition RK_M : nat := 397.
Definition MATRIX_A : Z := 0x9908b0df.
Definition UPPER_MASK : Z := 0x80000000.
Definition LOWER_MASK : Z := 0x7fffffff.

Definition uint32 (z : Z) : Z := Z.land z 0xffffffff.

(** The words that [rk_seed] writes from position [pos] on, [seed] being
    the word for that position. *)
Fixpoint seed_words (k : nat) (pos seed : Z) : list Z :=
  match k with
  | O => []
  | S k =>
      seed :: seed_words k (pos + 1)
                (uint32 (1812433253 * Z.lxor seed (Z.shiftr seed 30) + pos + 1))
  end.

(** [rk_seed(seed, state)], which is [RandomState(seed)] for an integer
    seed. *)
Definition rk_seed (seed : Z) : rk_state :=
  {| key := seed_words RK_STATE_LEN 0 (uint32 seed); pos := RK_STATE_LEN |}.

Definition word (key : list Z) (i : nat) : Z := default 0 (key !! i).

(** Word [i] of the next block, written in place: the words before [i] are
    new already. *)
Definition twist_word (key : list Z) (i : nat) : list Z :=
  let y := Z.lor (Z.land (word key i) UPPER_MASK)
                 (Z.land (word key ((i + 1) mod RK_STATE_LEN)) LOWER_MASK) in
  <[i := Z.lxor (Z.lxor (word key ((i + RK_M) mod RK_STATE_LEN)) (Z.shiftr y 1))
                (if Z.odd y then MATRIX_A else 0)]> key.

Definition twist (key : list Z) : list Z := foldl twist_word key (seq 0 RK_STATE_LEN).

(** [rk_random(state)]: the next word, tempered. *)
Definition rk_random (st : rk_state) : Z * rk_state :=
  let st := if Nat.eqb (pos st) RK_STATE_LEN
            then {| key := twist (key st); pos := 0 |} else st in
  let y := word (key st) (pos st) in
  let y := Z.lxor y (Z.shiftr y 11) in
  let y := Z.lxor y (Z.land (Z.shiftl y 7) 0x9d2c5680) in
  let y := Z.lxor y (Z.land (Z.shiftl y 15) 0xefc60000) in
  let y := Z.lxor y (Z.shiftr y 18) in
  (y, {| key := key st; pos := S (pos st) |}).

(** [rk_ulong(state)] where a long has 64 bits: two words, the high one
    first. *)
Definition rk_ulong (st : rk_state) : Z * rk_state :=
  let (hi, st) := rk_random st in
  let (lo, st) := rk_random st in
  (Z.lor (Z.shiftl hi 32) lo, st).

(** The smallest mask [2^k - 1] that covers [max]. *)
Definition bit_mask (max : Z) : Z :=
  let mask := max in
  let mask := Z.lor mask (Z.shiftr mask 1) in
  let mask := Z.lor mask (Z.shiftr mask 2) in
  let mask := Z.lor mask (Z.shiftr mask 4) in
  let mask := Z.lor mask (Z.shiftr mask 8) in
  let mask := Z.lor mask (Z.shiftr mask 16) in
  Z.lor mask (Z.shiftr mask 32).

(** The loop [while ((value = (draw(state) & mask)) > max);] of
    [rk_interval], followed for at most [bound] draws. *)
Fixpoint rejection (bound : nat) (draw : rk_state → Z * rk_state) (max mask : Z)
    (st : rk_state) : option (Z * rk_state) :=
  match bound with
  | O => None
  | S bound =>
      let (r, st) := draw st in
      let value := Z.land r mask in
      if max <? value then rejection bound draw max mask st else Some (value, st)
  end.

(** [rk_interval(max, state)]: a number in [0, max], by rejection. *)
Definition rk_interval (bound : nat) (max : Z) (st : rk_state) : option (Z * rk_state) :=
  if max =? 0 then Some (0, st)
  else rejection bound (if max <=? 0xffffffff then rk_random else rk_ulong)
         max (bit_mask max) st.

(** The loop [for i in reversed(range(1, n)): j = rk_interval(i, state);
    x[i], x[j] = x[j], x[i]] of [shuffle], from position [i] down. *)
Fixpoint shuffle_from (bound i : nat) (x : list Z) (st : rk_state)
  : option (list Z * rk_state) :=
  match i with
  | O => Some (x, st)
  | S i' =>
      '(j, st) ← rk_interval bound (Z.of_nat i) st;
      let j := Z.to_nat j in
      let x := match x !! i, x !! j with
               | Some xi, Some xj => <[i := xj]> (<[j := xi]> x)
               | _, _ => x
               end in
      shuffle_from bound i' x st
  end.

(** [RandomState.shuffle(x)] for a one-dimensional array. *)
Definition shuffle (bound : nat) (x : list Z) (st : rk_state) : option (list Z * rk_state) :=
  shuffle_from bound (length x - 1) x st.

(** [RandomState.permutation(n)]: [arange(n)], shuffled. *)
Definition permutation (bound n : nat) (st : rk_state) : option (list Z * rk_state) :=
  shuffle bound (arange n) st.

End Mtrand.

(** scikit-learn's [ShuffleSplit] and what it calls, after
    sklearn/model_selection/_split.py and sklearn/utils/validation.py. *)
Module Sklearn.

(** The generators of [numpy.random] that a splitter can draw from: the
    global one and the [RandomState] objects of the caller. *)
Record numpy_random : Type :=
  mk_numpy_random { global : Mtrand.rk_state; instances : gmap nat Mtrand.rk_state }.

(** What [check_random_state] returns: the global generator, a generator of
    the caller, or one seeded here and owned by the splitting in progress. *)
Inductive random_source : Type :=
  | TheGlobal
  | Shared (id : nat)
  | Own (st : Mtrand.rk_state).

(** [check_random_state(seed)] *)
Definition check_random_state (seed : option pyobj) (x : numpy_random)
  : res random_source :=
  match seed with
  | None | Some PyNone => Ok TheGlobal
  | Some (PyInt z) =>
      if (0 <=? z) && (z <=? 0xffffffff) then Ok (Own (Mtrand.rk_seed z))
      else Raise ValueError
  | Some (PyBool b) => Ok (Own (Mtrand.rk_seed (if b then 1 else 0)))
  | Some (PyObject id) =>
      match instances x !! id with
      | Some _ => Ok (Shared id)
      | None => Raise ValueError
      end
  | Some (PyFloat _) => Raise ValueError
  end.

(** [rng.permutation(n)] on the generator that [src] names. *)
Definition draw (bound n : nat) (src : random_source) (x : numpy_random)
  : option (list Z * random_source * numpy_random) :=
  match src with
  | Own st =>
      '(p, st) ← Mtrand.permutation bound n st; Some (p, Own st, x)
  | TheGlobal =>
      '(p, st) ← Mtrand.permutation bound n (global x);
      Some (p, TheGlobal, {| global := st; instances := instances x |})
  | Shared id =>
      st ← instances x !! id;
      '(p, st) ← Mtrand.permutation bound n st;
      Some (p, Shared id, {| global := global x; instances := <[id := st]> (instances x) |})
  end.

(** A size option as [_validate_shuffle_split] sorts it, by the kind of
    [np.asarray(size).dtype]. *)
Inductive size_t : Type :=
  | SizeNone
  | SizeInt (z : Z)
  | SizeFloat (f : PrimFloat.float)
  | SizeOther.

Definition size_of_option (o : option pyobj) : size_t :=
  match o with
  | None | Some PyNone => SizeNone
  | Some (PyInt z) => SizeInt z
  | Some (PyFloat f) => SizeFloat f
  | Some (PyBool _) | Some (PyObject _) => SizeOther
  end.

(** [float(n)] for a number of samples, which is below 2^63. *)
Definition float_of_nat (n : nat) : PrimFloat.float :=
  PrimFloat.of_uint63 (Uint63.of_Z (Z.of_nat n)).

(** [floor(f)] and [ceil(f)] of [math], which refuse infinities and NaN. *)
Definition floor (f : PrimFloat.float) : res Z :=
  match FloatOps.Prim2SF f with
  | SpecFloat.S754_zero _ => Ok 0
  | SpecFloat.S754_finite s m e =>
      let m := if s then Z.neg m else Z.pos m in
      Ok (if 0 <=? e then m * 2 ^ e else m / 2 ^ (- e))
  | _ => Raise ValueError
  end.

Definition ceil (f : PrimFloat.float) : res Z :=
  match FloatOps.Prim2SF f with
  | SpecFloat.S754_zero _ => Ok 0
  | SpecFloat.S754_finite s m e =>
      let m := if s then Z.neg m else Z.pos m in
      Ok (if 0 <=? e then m * 2 ^ e else - ((- m) / 2 ^ (- e)))
  | _ => Raise ValueError
  end.

Definition one : PrimFloat.float := float_of_nat 1.
Definition zero : PrimFloat.float := float_of_nat 0.

(** [ShuffleSplit._default_test_size], 0.1 *)
Definition default_test_size : PrimFloat.float := PrimFloat.div one (float_of_nat 10).

(** A size out of the range that its kind allows. *)
Definition out_of_range (n_samples : nat) (size : size_t) : bool :=
  match size with
  | SizeInt z => (Z.of_nat n_samples <=? z) || (z <=? 0)
  | SizeFloat f => PrimFloat.leb f zero || PrimFloat.leb one f
  | _ => false
  end.

(** [_validate_shuffle_split(n_samples, test_size, train_size,
    default_test_size=0.1)]: the numbers of train and test points. *)
Definition validate_shuffle_split (n_samples : nat) (test_size train_size : size_t)
  : res (nat * nat) :=
  let test_size := match test_size, train_size with
                   | SizeNone, SizeNone => SizeFloat default_test_size
                   | _, _ => test_size
                   end in
  if out_of_range n_samples test_size then Raise ValueError
  else if out_of_range n_samples train_size then Raise ValueError
  else if match train_size with SizeOther => true | _ => false end then Raise ValueError
  else if match test_size with SizeOther => true | _ => false end then Raise ValueError
  else if match train_size, test_size with
          | SizeFloat a, SizeFloat b => PrimFloat.ltb one (PrimFloat.add a b)
          | _, _ => false
          end then Raise ValueError
  else
    n_test ← match test_size with
             | SizeFloat f => ceil (PrimFloat.mul f (float_of_nat n_samples))
             | SizeInt z => Ok z
             | _ => Ok 0
             end;
    n_train ← match train_size with
              | SizeFloat f => floor (PrimFloat.mul f (float_of_nat n_samples))
              | SizeInt z => Ok z
              | _ => Ok (Z.of_nat n_samples - n_test)
              end;
    let n_test := match test_size with
                  | SizeNone => Z.of_nat n_samples - n_train
                  | _ => n_test
                  end in
    if Z.of_nat n_samples <? n_train + n_test then Raise ValueError
    else if n_train =? 0 then Raise ValueError
    else Ok (Z.to_nat n_train, Z.to_nat n_test).

(** [range(n_splits)], as the number of rounds. *)
Definition range (n_splits : pyobj) : res nat :=
  match n_splits with
  | PyInt z => Ok (Z.to_nat z)
  | PyBool b => Ok (if b then 1%nat else 0%nat)
  | _ => Raise TypeError
  end.

(** The loop of [_iter_indices]: [k] more rounds, each a permutation of the
    [n] positions, of which the first [n_test] are the test indices and the
    next [n_train] the train indices. *)
Fixpoint rounds (bound n n_train n_test k : nat) (src : random_source)
  : iterator numpy_random (list Z * list Z) :=
  Iterator (λ x,
    match k with
    | O => Stop x
    | S k =>
        match draw bound n src x with
        | Some (p, src, x') =>
            Yield (take n_train (drop n_test p), take n_test p)
                  (rounds bound n n_train n_test k src) x'
        | None => Throw SystemError x
        end
    end).

(** [split(X)] of a [ShuffleSplit] built with the keywords [kw], for [n]
    samples: a generator, so that nothing is validated before it is first
    resumed. *)
Definition iter_indices (bound : nat) (kw : gmap string pyobj) (n : nat)
  : iterator numpy_random (list Z * list Z) :=
  Iterator (λ x,
    match validate_shuffle_split n (size_of_option (kw !! "test_size"))
            (size_of_option (kw !! "train_size")) with
    | Raise e => Throw e x
    | Ok (n_train, n_test) =>
        match check_random_state (kw !! "random_state") x with
        | Raise e => Throw e x
        | Ok src =>
            match range (default (PyInt 10) (kw !! "n_splits")) with
            | Raise e => Throw e x
            | Ok k => resume (rounds bound n n_train n_test k src) x
            end
        end
    end).

Definition parameters : list string :=
  ["n_splits"; "test_size"; "train_size"; "random_state"].

(** [ShuffleSplit] of scikit-learn (0.21 and later) called with the
    keywords [kw], drawing from NumPy's [RandomState]; [bound] bounds the
    draws of one rejection loop.  An unknown keyword is a [TypeError]; the
    options are looked at when the generator is first resumed. *)
Definition ShuffleSplit (bound : nat) (kw : gmap string pyobj)
  : res (cv_t numpy_random) :=
  if forallb (λ k, bool_decide (k ∈ parameters)) (map_to_list kw).*1
  then Ok {| split := λ indices, iter_indices bound kw (length indices) |}
  else Raise TypeError.

End Sklearn.

(** ** verde.model_selection *)

Section ModelSelection.
Context {T X Sc : Type} `{!ArrayLike Sc}.

(** The imports of the module. *)
Variable check_fit_input :
  list ndarray → pyarg → pyarg → res (tuple_t * tuple_t * tuple_t).
Variable DummyClient : client_t T X Sc.
Variable KFold : gmap string pyobj → res (cv_t X).
Variable ShuffleSplit : gmap string pyobj → res (cv_t X).

(** [data[0].size] *)
Definition size_of_first (data : tuple_t) : res nat :=
  match data with
  | [] => Raise IndexError
  | None :: _ => Raise AttributeError
  | Some a :: _ => Ok (size a)
  end.

Definition train_test_split (coordinates : list ndarray) (data weights : pyarg)
    (kwargs : gmap string pyobj)
  : M (world T X) ((arrays_t * arrays_t * arrays_t) * (arrays_t * arrays_t * arrays_t)) :=
  args ← lift (check_fit_input coordinates data weights);
  ndata ← lift (size_of_first args.1.2);
  let indices := arange ndata in
  kw ← lift (keywords "n_splits" (PyInt 1) kwargs);
  cv ← lift (ShuffleSplit kw);
  split ← on_ext (next (split cv indices));
  train ← on_np (select_args args split.1);
  test ← on_np (select_args args split.2);
  mret (train, test).

Definition fit_score (estimator : estimator_t T X Sc)
    (train_data test_data : arrays_t * arrays_t * arrays_t) : M (world T X) Sc :=
  let '(c, d, w) := train_data in
  _ ← fit estimator c d w;
  let '(c, d, w) := test_data in
  score estimator c d w.

(** The loop [for train, test in folds: ...], with [scores] the list built
    so far: the iterator is resumed, and the fold it yields is selected,
    submitted and its result appended, until the iterator is exhausted.
    The loop ends when [__next__] raises [StopIteration], however the
    iterator comes to raise it; any other exception leaves the loop and the
    function. *)
Fixpoint score_folds (estimator : estimator_t T X Sc) (client : client_t T X Sc)
    (args : tuple_t * tuple_t * tuple_t)
    (folds : iterator X (list Z * list Z)) (scores : list (work_result Sc))
    {struct folds} : M (world T X) (list (work_result Sc)) := λ w,
  match folds with
  | Iterator resume =>
      match resume (ext w) with
      | Stop x => (Ok scores, {| np := np w; ext := x |})
      | Throw StopIteration x => (Ok scores, {| np := np w; ext := x |})
      | Throw e x => (Raise e, {| np := np w; ext := x |})
      | Yield (train, test) folds x =>
          (train_data ← on_np (select_args args train);
           test_data ← on_np (select_args args test);
           score ← submit client (fit_score estimator train_data test_data);
           score_folds estimator client args folds (scores ++ [score]))
            {| np := np w; ext := x |}
      end
  end.

Definition cross_val_score (estimator : estimator_t T X Sc)
    (coordinates : list ndarray) (data weights : pyarg)
    (cv : option (cv_t X)) (client : option (client_t T X Sc))
  : M (world T X) (stacked (work_result Sc)) :=
  args ← lift (check_fit_input coordinates data weights);
  let client := default DummyClient client in
  cv ← match cv with
       | Some cv => mret cv
       | None =>
           lift (KFold {[ "shuffle" := PyBool true;
                          "random_state" := PyInt 0;
                          "n_splits" := PyInt 5 ]})
       end;
  ndata ← lift (size_of_first args.1.2);
  scores ← score_folds estimator client args (split cv (arange ndata)) [];
  lift (asarray scores).

End ModelSelection.

(** ** Vocabulary of the statements *)

Section Vocabulary.
Context {T : Type}.
Implicit Types (h : list (list T)) (a r : ndarray) (cells : list T).

(** [a.flatten()] as a value: the elements of [a] in row-major order. *)
Definition flatten h a : list T := default [] (h !! buffer a).

(** [a] lives in the store, on a buffer of [a.size] cells. *)
Definition well_formed h a : Prop :=
  ∃ cells, h !! buffer a = Some cells ∧ length cells = size a.

(** [cells[j]] for a Python integer [j]: counted from the end when
    negative, undefined out of range. *)
Definition at_index cells (j : Z) : option T :=
  if decide (0 ≤ j) then cells !! Z.to_nat j
  else if decide (- Z.of_nat (length cells) ≤ j)
       then cells !! Z.to_nat (Z.of_nat (length cells) + j)
       else None.

(** The arrays held by a tuple. *)
Definition arrays_of (t : arrays_t) : list ndarray :=
  match t with
  | Some items => omap id items
  | None => []
  end.

(** The contents of the arrays of a tuple, slot by slot. *)
Definition cells_of h (t : arrays_t) : list (list T) := flatten h <$> arrays_of t.

(** No array of [out] is on a buffer of an array of [inp]. *)
Definition independent (inp out : arrays_t) : Prop :=
  ∀ a r, a ∈ arrays_of inp → r ∈ arrays_of out → buffer a ≠ buffer r.

(** The cells that [a.ravel()[index]] reads, from the store [h]. *)
Definition gather h (index : list Z) a : res (list T) :=
  match h !! buffer a with
  | Some cells => mapM (read_cell cells (size a)) index
  | None => Raise SystemError
  end.

(** [k] array objects of shape [(m,)] on the buffers [base], [base+1], ... *)
Fixpoint fresh (base m k : nat) : list ndarray :=
  match k with
  | O => []
  | S k => {| buffer := base; shape := [m] |} :: fresh (S base) m k
  end.

End Vocabulary.

Section WorldVocabulary.
Context {T X Sc : Type}.

(** Python's [len(a)]: the first dimension. *)
Definition len (a : ndarray) : nat := hd 0%nat (shape a).

(** An array as a value: its shape and its cells. *)
Definition value_of (h : list (list T)) (a : ndarray) : option (list nat * list T) :=
  cells ← h !! buffer a; Some (shape a, cells).

Definition values_of (h : list (list T)) (t : arrays_t)
  : option (list (option (option (list nat * list T)))) :=
  fmap (M := option) (fmap (M := list) (fmap (M := option) (value_of h))) t.

(** A (coordinates, data, weights) triple as values. *)
Definition values3 (h : list (list T)) (o : arrays_t * arrays_t * arrays_t) :=
  (values_of h o.1.1, values_of h o.1.2, values_of h o.2).

(** The arrays [arrs] live in both stores and hold the same cells there. *)
Definition agree (arrs : list ndarray) (h1 h2 : list (list T)) : Prop :=
  Forall (λ a, (buffer a < length h1)%nat ∧ (buffer a < length h2)%nat ∧
               h1 !! buffer a = h2 !! buffer a) arrs.

(** Every array of [t] lives in the store. *)
Definition valid_in (h : list (list T)) (t : arrays_t) : Prop :=
  Forall (λ r, (buffer r < length h)%nat) (arrays_of t).

(** Two outcomes of [select] that a caller cannot tell apart: the same
    exception, or tuples of arrays with the same shapes and cells. *)
Definition same_outcome (h1 h2 : list (list T)) (r1 r2 : res arrays_t) : Prop :=
  match r1, r2 with
  | Ok o1, Ok o2 =>
      values_of h1 o1 = values_of h2 o2 ∧ valid_in h1 o1 ∧ valid_in h2 o2
  | Raise e1, Raise e2 => e1 = e2
  | _, _ => False
  end.

Definition valid3 (h : list (list T)) (o : arrays_t * arrays_t * arrays_t) : Prop :=
  valid_in h o.1.1 ∧ valid_in h o.1.2 ∧ valid_in h o.2.

Definition same_outcome3 (h1 h2 : list (list T))
    (r1 r2 : res (arrays_t * arrays_t * arrays_t)) : Prop :=
  match r1, r2 with
  | Ok o1, Ok o2 => values3 h1 o1 = values3 h2 o2 ∧ valid3 h1 o1 ∧ valid3 h2 o2
  | Raise e1, Raise e2 => e1 = e2
  | _, _ => False
  end.

(** Two calls of [train_test_split] that a caller cannot tell apart: the
    same exception, or train and test sets with the same shapes and
    cells. *)
Definition same_split
    (p1 p2 : res ((arrays_t * arrays_t * arrays_t) * (arrays_t * arrays_t * arrays_t))
             * world T X) : Prop :=
  match p1.1, p2.1 with
  | Ok (train1, test1), Ok (train2, test2) =>
      values3 (np p1.2) train1 = values3 (np p2.2) train2 ∧
      values3 (np p1.2) test1 = values3 (np p2.2) test2
  | Raise e1, Raise e2 => e1 = e2
  | _, _ => False
  end.

(** The contract of a seeded splitter: built with an integer
    [random_state], the first partition it yields (or the way it fails to)
    does not depend on the state of the outside world. *)
Definition seeded (splitter : gmap string pyobj → res (cv_t X)) : Prop :=
  ∀ kw seed cv indices x1 x2,
    kw !! "random_state" = Some (PyInt seed) →
    splitter kw = Ok cv →
    (next (split cv indices) x1).1 = (next (split cv indices) x2).1.

(** The iterator [it], resumed in the outside state [x0], is exhausted and
    leaves the outside state [x]: its [__next__] raises [StopIteration]. *)
Definition exhausted {A} (it : iterator X A) (x0 x : X) : Prop :=
  resume it x0 = Stop x ∨ resume it x0 = Throw StopIteration x.

(** [folds_scored estimator client args w it folds scores w' it']: from the
    world [w] and the iterator [it], the folds [folds] are yielded one after
    the other, each selected and submitted before the iterator is resumed
    again, the submissions returning [scores] in that order; this leaves
    the world [w'] and the iterator [it']. *)
Inductive folds_scored (estimator : estimator_t T X Sc) (client : client_t T X Sc)
    (args : tuple_t * tuple_t * tuple_t)
  : world T X → iterator X (list Z * list Z) →
    list (list Z * list Z) → list (work_result Sc) →
    world T X → iterator X (list Z * list Z) → Prop :=
  | scored_none w it : folds_scored estimator client args w it [] [] w it
  | scored_more w it train test rest x train_data w1 test_data w2 sc w3
      folds scores w4 it4 :
      resume it (ext w) = Yield (train, test) rest x →
      on_np (select_args args train) {| np := np w; ext := x |} = (Ok train_data, w1) →
      on_np (select_args args test) w1 = (Ok test_data, w2) →
      submit client (fit_score estimator train_data test_data) w2 = (Ok sc, w3) →
      folds_scored estimator client args w3 rest folds scores w4 it4 →
      folds_scored estimator client args w it
        ((train, test) :: folds) (sc :: scores) w4 it4.

End WorldVocabulary.

(** ** Concrete stores and tuples *)

(** One array of three cells, and a tuple holding it next to a [None]. *)
Definition heap_3 : list (list Z) := [[10; 20; 30]].
Definition array_3 : ndarray := {| buffer := 0; shape := [3%nat] |}.
Definition partly_absent : arrays_t := Some [Some array_3; None].

(** The arrays of the docstring of [select]: [arange(5)], [arange(-3, 2)]. *)
Definition heap_5 : list (list Z) := [[0; 1; 2; 3; 4]; [-3; -2; -1; 0; 1]].
Definition arrays_5 : list ndarray :=
  [ {| buffer := 0; shape := [5%nat] |}; {| buffer := 1; shape := [5%nat] |} ].

(** The arrays of the docstring of [train_test_split]: two coordinates, two
    data components, two weight components, four points each. *)
Definition doc_heap : list (list Z) :=
  [ [0; 1; 2; 3]; [-4; -3; -2; -1];
    [1; 3; 5; 7]; [0; 2; 4; 6];
    [1; 1; 2; 1]; [1; 2; 1; 1] ].
Definition doc_array (k : nat) : ndarray := {| buffer := k; shape := [4%nat] |}.
Definition doc_coordinates : list ndarray := [doc_array 0; doc_array 1].
Definition doc_data : pyarg := ArgTuple [Some (doc_array 2); Some (doc_array 3)].
Definition doc_weights : pyarg := ArgTuple [Some (doc_array 4); Some (doc_array 5)].

(** [random_state=0] *)
Definition doc_options : gmap string pyobj := {[ "random_state" := PyInt 0 ]}.

(** A splitter that yields the partition of that docstring, whatever it is
    asked and whatever the state of the outside world. *)
Definition doc_splitter {X} : gmap string pyobj → res (cv_t X) :=
  λ _, Ok {| split := λ _, iter [([3; 1; 0], [2])] |}.

(** Gridded data: two coordinates and one data component of shape (2, 3). *)
Definition grid_heap : list (list Z) :=
  [ [0; 1; 2; 0; 1; 2]; [0; 0; 0; 1; 1; 1]; [5; 6; 7; 8; 9; 10] ].
Definition grid_array (k : nat) : ndarray := {| buffer := k; shape := [2%nat; 3%nat] |}.

(** A splitter that keeps, as the state of the outside world, the index
    sequence it was given. *)
Definition recording_splitter : gmap string pyobj → res (cv_t (list Z)) :=
  λ _, Ok {| split := λ indices, Iterator (λ _, Yield ([0], [1]) (iter []) indices) |}.

(** An estimator whose [fit] counts its calls in the outside state and whose
    [score] returns the count. *)
Definition counting_estimator : estimator_t Z nat Z :=
  {| fit := λ _ _ _ w, (Ok (), {| np := np w; ext := S (ext w) |});
     score := λ _ _ _ w, (Ok (Z.of_nat (ext w)), w) |}.

(** An estimator that can be fitted once: the second [fit] fails. *)
Definition fit_once_estimator : estimator_t Z nat Z :=
  {| fit := λ _ _ _ w,
       if Nat.eqb (ext w) 0 then (Ok (), {| np := np w; ext := 1%nat |})
       else (Raise (Failure 1), w);
     score := λ _ _ _ w, (Ok (Z.of_nat (ext w)), w) |}.

(** A generator of two folds over four points. *)
Definition two_folds {X} : cv_t X :=
  {| split := λ _, iter [([1; 2; 3], [0]); ([0; 2; 3], [1])] |}.

(** A [KFold] that is never built. *)
Definition no_KFold {X} : gmap string pyobj → res (cv_t X) := λ _, Raise (Failure 0).

(** ** Vocabulary of the further properties *)

(** An entry that indexes an axis of length [n]. *)
Definition in_range (n : nat) (j : Z) : Prop := - Z.of_nat n ≤ j < Z.of_nat n.

(** [index1[index2]]: the entries of [index1] at the positions [index2]. *)
Definition compose_index (index1 index2 : list Z) : list Z :=
  omap (at_index index1) index2.

(** The three slots of a (coordinates, data, weights) triple. *)
Definition slots {A} (t : A * A * A) : list A := [t.1.1; t.1.2; t.2].

(** The arrays of a (coordinates, data, weights) triple, slot after slot. *)
Definition all_arrays (o : arrays_t * arrays_t * arrays_t) : list ndarray :=
  arrays_of o.1.1 ++ arrays_of o.1.2 ++ arrays_of o.2.

(** A slot that is given as a whole or not at all: arrays of the store in
    every place, or the absent marker in every place. *)
Definition whole {T} (h : list (list T)) (t : tuple_t) : Prop :=
  (∃ arrs : list ndarray, t = Some <$> arrs ∧ Forall (well_formed h) arrs) ∨
  Forall (λ i, i = None) t.

(** An outside world for NumPy's generators: the global one in the state
    that seeding it with 42 leaves, and no generator object. *)
Definition numpy_42 : Sklearn.numpy_random :=
  {| Sklearn.global := Mtrand.rk_seed 42; Sklearn.instances := ∅ |}.

(** A client that runs nothing: it hands out numbered handles, counted in
    the outside state. *)
Definition deferring_client {T Sc} : client_t T nat Sc :=
  {| submit := λ _ w, (Ok (Future (ext w)), {| np := np w; ext := S (ext w) |}) |}.

(** A generator that yields one fold, then fails when resumed. *)
Definition failing_folds {X} : cv_t X :=
  {| split := λ _, Iterator (λ x,
       Yield ([1; 2; 3], [0]) (Iterator (λ x', Throw (Failure 2) x')) x) |}.

(** A generator whose second fold has a train index out of range. *)
Definition stray_folds {X} : cv_t X :=
  {| split := λ _, iter [([1; 2; 3], [0]); ([0; 2; 4], [1])] |}.

(** ** Lemmas on the monads *)

Lemma mapM_res_Ok {A B} (f : A → res B) (l : list A) (ys : list B) :
  mapM f l = Ok ys ↔ Forall2 (λ x y, f x = Ok y) l ys.
Proof.
  revert ys. induction l as [|x l IH]; intros ys; simpl.
  - split.
    + intros [= <-]. constructor.
    + intros H. inversion H. reflexivity.
  - unfold mbind, res_bind, mret, res_ret.
    destruct (f x) as [y|e] eqn:Hx.
    + destruct (mapM f l) as [k|e] eqn:Hl.
      * split.
        -- intros [= <-]. constructor; [done|]. by apply IH.
        -- intros H. inversion H as [|? y' ? k' Hy Hk]; subst.
           apply IH in Hk. congruence.
      * split; [done|].
        intros H. inversion H as [|? y' ? k' Hy Hk]; subst.
        apply IH in Hk. congruence.
    + split; [done|].
      intros H. inversion H; congruence.
Qed.

Lemma M_bind_run {S A B} (m : M S A) (f : A → M S B) (s : S) :
  (m ≫= f) s =
    match m s with
    | (Ok a, s') => f a s'
    | (Raise e, s') => (Raise e, s')
    end.
Proof. reflexivity. Qed.

Lemma mapM_M_cons {S A B} (f : A → M S B) (x : A) (l : list A) :
  mapM f (x :: l) = (y ← f x; k ← mapM f l; mret (y :: k)).
Proof. reflexivity. Qed.

Lemma bind_lift_run {S A B} (r : res A) (f : A → M S B) (s : S) :
  (lift r ≫= f) s =
    match r with
    | Ok a => f a s
    | Raise e => (Raise e, s)
    end.
Proof. by destruct r. Qed.

Lemma bind_on_ext_run {T X A B} (m : M X A) (f : A → M (world T X) B) (w : world T X) :
  (on_ext m ≫= f) w =
    match m (ext w) with
    | (Ok a, x) => f a {| np := np w; ext := x |}
    | (Raise e, x) => (Raise e, {| np := np w; ext := x |})
    end.
Proof. rewrite M_bind_run. unfold on_ext. by destruct (m (ext w)) as [[a|e] x]. Qed.

Lemma bind_on_np_run {T X A B} (m : M (list (list T)) A) (f : A → M (world T X) B)
    (w : world T X) :
  (on_np m ≫= f) w =
    match m (np w) with
    | (Ok a, h) => f a {| np := h; ext := ext w |}
    | (Raise e, h) => (Raise e, {| np := h; ext := ext w |})
    end.
Proof. rewrite M_bind_run. unfold on_np. by destruct (m (np w)) as [[a|e] h]. Qed.

Lemma mapM_res_ext {A B} (f g : A → res B) (l : list A) :
  Forall (λ x, f x = g x) l → mapM f l = mapM g l.
Proof.
  induction 1 as [|x l Hx _ IH]; simpl; [done|].
  by rewrite Hx, IH.
Qed.

(** ** Lemmas on indexing *)

Section IndexLemmas.
Context {T : Type}.
Implicit Types (h : list (list T)) (a r : ndarray) (cells : list T).

Lemma normalize_index_valid (n : nat) (j : Z) :
  - Z.of_nat n ≤ j < Z.of_nat n →
  normalize_index n j =
    Ok (if decide (0 ≤ j) then Z.to_nat j else Z.to_nat (Z.of_nat n + j)).
Proof.
  intros Hj. unfold normalize_index.
  repeat case_decide; try lia; try done.
  by rewrite Z.add_comm.
Qed.

Lemma read_cell_valid cells (j : Z) :
  - Z.of_nat (length cells) ≤ j < Z.of_nat (length cells) →
  ∃ x, read_cell cells (length cells) j = Ok x ∧ at_index cells j = Some x.
Proof.
  intros Hj. unfold read_cell, at_index.
  rewrite normalize_index_valid by done. simpl.
  unfold mbind, res_bind.
  case_decide.
  - destruct (lookup_lt_is_Some_2 cells (Z.to_nat j)) as [x Hx]; [lia|].
    exists x. by rewrite Hx.
  - rewrite decide_True by lia.
    destruct (lookup_lt_is_Some_2 cells (Z.to_nat (Z.of_nat (length cells) + j)))
      as [x Hx]; [lia|].
    exists x. by rewrite Hx.
Qed.

Lemma mapM_read_cell_valid cells (index : list Z) :
  Forall (λ j, - Z.of_nat (length cells) ≤ j < Z.of_nat (length cells)) index →
  ∃ picked, mapM (read_cell cells (length cells)) index = Ok picked ∧
            Some <$> picked = at_index cells <$> index.
Proof.
  induction 1 as [|j index Hj _ (picked & Hp & Hv)].
  - by exists [].
  - destruct (read_cell_valid cells j Hj) as (x & Hx & Hat).
    exists (x :: picked). split.
    + simpl. by rewrite Hx, Hp.
    + by rewrite !fmap_cons, Hat, Hv.
Qed.

Lemma getitem_ravel a (index : list Z) h :
  getitem (ravel a) index h =
    match gather h index a with
    | Ok picked =>
        (Ok {| buffer := length h; shape := [length index] |}, h ++ [picked])
    | Raise e => (Raise e, h)
    end.
Proof.
  unfold getitem, gather, ravel. simpl.
  by destruct (h !! buffer a).
Qed.

Lemma gather_app h extra (index : list Z) a :
  (buffer a < length h)%nat → gather (h ++ extra) index a = gather h index a.
Proof.
  intros Ha. unfold gather. by rewrite lookup_app_l.
Qed.

Lemma existsb_is_none_Some (arrs : list ndarray) :
  existsb is_none (Some <$> arrs) = false.
Proof. induction arrs; simpl; done. Qed.

Lemma existsb_is_none_true (items : tuple_t) :
  None ∈ items → existsb is_none items = true.
Proof.
  induction items as [|i items IH]; [by intros ?%elem_of_nil|].
  intros [<-|Hin]%elem_of_cons; simpl; [done|].
  rewrite IH by done. by destruct i.
Qed.

Lemma existsb_is_none_false (items : tuple_t) :
  existsb is_none items = false → items = Some <$> omap id items.
Proof.
  induction items as [|[a|] items IH]; simpl; [done| |done].
  intros H. f_equal. by apply IH.
Qed.

Lemma fresh_length (base m k : nat) : length (fresh base m k) = k.
Proof. revert base. induction k; intros; simpl; [done|]. by rewrite IHk. Qed.

Lemma fresh_lookup (base m k j : nat) :
  (j < k)%nat →
  fresh base m k !! j = Some {| buffer := (base + j)%nat; shape := [m] |}.
Proof.
  revert base j. induction k as [|k IH]; intros base j Hj; [lia|].
  destruct j as [|j]; simpl.
  - by rewrite Nat.add_0_r.
  - rewrite IH by lia. do 2 f_equal. lia.
Qed.

Lemma fresh_buffers (base m k : nat) : buffer <$> fresh base m k = seq base k.
Proof. revert base. induction k; intros; simpl; [done|]. by rewrite IHk. Qed.

Lemma omap_Some_id {A} (l : list A) : omap id (Some <$> l) = l.
Proof. induction l; simpl; [done|]. by f_equal. Qed.

(** The run of [i.ravel()[index] for i in arrays] on arrays of the store:
    one new buffer per array, in order, holding the gathered cells. *)
Lemma mapM_select_item_run (index : list Z) (arrs : list ndarray) h :
  Forall (λ a, (buffer a < length h)%nat) arrs →
  match mapM (gather h index) arrs with
  | Ok picks =>
      mapM (select_item index) (Some <$> arrs) h =
        (Ok (Some <$> fresh (length h) (length index) (length arrs)), h ++ picks)
  | Raise e =>
      ∃ extra, mapM (select_item index) (Some <$> arrs) h = (Raise e, h ++ extra)
  end.
Proof.
  revert h. induction arrs as [|a arrs IH]; intros h Hv.
  - simpl. unfold mret, M_ret. by rewrite app_nil_r.
  - inversion Hv as [|? ? Ha Hv']; subst.
    assert (Hgrow : ∀ p, Forall (λ a', (buffer a' < length (h ++ [p]))%nat) arrs).
    { intros p. eapply Forall_impl; [exact Hv'|]. intros a' Ha'. simpl in Ha'.
      rewrite length_app. simpl. lia. }
    assert (Hsame : ∀ p, mapM (gather (h ++ [p]) index) arrs
                         = mapM (gather h index) arrs).
    { intros p. apply mapM_res_ext.
      eapply Forall_impl; [exact Hv'|]. intros a' Ha'. by apply gather_app. }
    rewrite fmap_cons, mapM_M_cons, M_bind_run.
    change (select_item index (Some a) h)
      with ((r ← getitem (ravel a) index; mret (Some r)) h).
    rewrite M_bind_run, getitem_ravel.
    change (mapM (gather h index) (a :: arrs))
      with (p ← gather h index a; k ← mapM (gather h index) arrs; mret (p :: k)).
    destruct (gather h index a) as [p|e] eqn:Hg; simpl.
    + rewrite M_bind_run.
      specialize (IH (h ++ [p]) (Hgrow p)). rewrite Hsame in IH.
      destruct (mapM (gather h index) arrs) as [picks|e] eqn:Hm; simpl.
      * rewrite IH. unfold mret, M_ret. rewrite length_app. simpl.
        rewrite <- app_assoc. simpl.
        by rewrite Nat.add_1_r.
      * destruct IH as [extra IH].
        rewrite IH. exists ([p] ++ extra). by rewrite app_assoc.
    + exists []. by rewrite app_nil_r.
Qed.

Lemma select_run (index : list Z) (arrs : list ndarray) h (picks : list (list T)) :
  Forall (λ a, (buffer a < length h)%nat) arrs →
  mapM (gather h index) arrs = Ok picks →
  select (Some (Some <$> arrs)) index h =
    (Ok (Some (Some <$> fresh (length h) (length index) (length arrs))), h ++ picks).
Proof.
  intros Hv Hg. pose proof (mapM_select_item_run index arrs h Hv) as Hrun.
  rewrite Hg in Hrun. unfold select.
  rewrite existsb_is_none_Some, M_bind_run, Hrun. reflexivity.
Qed.

Lemma well_formed_lt h a : well_formed h a → (buffer a < length h)%nat.
Proof. intros (cells & Hc & _). by eapply lookup_lt_Some. Qed.

Lemma gather_valid h (index : list Z) a :
  well_formed h a →
  Forall (λ j, - Z.of_nat (size a) ≤ j < Z.of_nat (size a)) index →
  ∃ picked, gather h index a = Ok picked ∧
            Some <$> picked = at_index (flatten h a) <$> index.
Proof.
  intros (cells & Hc & Hlen) Hidx. unfold gather, flatten.
  rewrite Hc. simpl. rewrite <- Hlen in *.
  by apply mapM_read_cell_valid.
Qed.

Lemma gather_all_valid h (index : list Z) (arrs : list ndarray) :
  Forall (well_formed h) arrs →
  Forall (λ a, Forall (λ j, - Z.of_nat (size a) ≤ j < Z.of_nat (size a)) index) arrs →
  ∃ picks,
    Forall2 (λ a p, gather h index a = Ok p ∧
                    Some <$> p = at_index (flatten h a) <$> index) arrs picks.
Proof.
  induction 1 as [|a arrs Ha _ IH]; intros Hidx.
  - exists []. constructor.
  - inversion Hidx as [|? ? Hj Hidx']; subst.
    destruct (IH Hidx') as [picks Hp].
    destruct (gather_valid h index a Ha Hj) as (p & Hg & Hat).
    exists (p :: picks). by constructor.
Qed.

(** On arrays of the store and an index valid for each of them, [select]
    returns one new array per slot, holding the indexed cells. *)
Lemma select_valid_run (index : list Z) (arrs : list ndarray) h :
  Forall (well_formed h) arrs →
  Forall (λ a, Forall (λ j, - Z.of_nat (size a) ≤ j < Z.of_nat (size a)) index) arrs →
  ∃ res h',
    select (Some (Some <$> arrs)) index h = (Ok (Some (Some <$> res)), h') ∧
    length res = length arrs ∧
    ∀ i a r, arrs !! i = Some a → res !! i = Some r →
      shape r = [length index] ∧
      Some <$> flatten h' r = at_index (flatten h a) <$> index.
Proof.
  intros Hwf Hidx.
  destruct (gather_all_valid h index arrs Hwf Hidx) as [picks Hp].
  assert (Hg : mapM (gather h index) arrs = Ok picks).
  { apply mapM_res_Ok. eapply Forall2_impl; [exact Hp|]. by intros ? ? [? _]. }
  exists (fresh (length h) (length index) (length arrs)), (h ++ picks).
  split; [|split].
  - apply select_run; [|done].
    eapply Forall_impl; [exact Hwf|]. apply well_formed_lt.
  - apply fresh_length.
  - intros i a r Ha Hr.
    assert (Hi : (i < length arrs)%nat) by by eapply lookup_lt_Some.
    rewrite fresh_lookup in Hr by done. injection Hr as <-. simpl.
    split; [done|].
    destruct (Forall2_lookup_l _ _ _ _ _ Hp Ha) as (p & Hpi & _ & Hat).
    unfold flatten at 1. simpl.
    rewrite lookup_app_r by lia.
    replace (length h + i - length h)%nat with i by lia.
    by rewrite Hpi.
Qed.

Lemma getitem_grows a (index : list Z) h :
  ∃ extra, (getitem a index h).2 = h ++ extra.
Proof.
  unfold getitem.
  destruct (shape a) as [|n [|? ?]]; try (exists []; by rewrite app_nil_r).
  destruct (h !! buffer a) as [cells|]; [|exists []; by rewrite app_nil_r].
  destruct (mapM _ index) as [picked|e]; simpl; [by eexists|].
  exists []. by rewrite app_nil_r.
Qed.

Lemma mapM_select_item_grows (index : list Z) (items : tuple_t) h :
  ∃ extra, (mapM (select_item index) items h).2 = h ++ extra.
Proof.
  revert h. induction items as [|i items IH]; intros h.
  - exists []. simpl. by rewrite app_nil_r.
  - rewrite mapM_M_cons, M_bind_run.
    destruct i as [a|]; simpl; [|exists []; by rewrite app_nil_r].
    rewrite M_bind_run.
    destruct (getitem_grows (ravel a) index h) as [e1 H1].
    destruct (getitem (ravel a) index h) as [[r|e] h1]; simpl in H1; subst h1;
      [|by eexists].
    simpl. rewrite M_bind_run.
    destruct (IH (h ++ e1)) as [e2 H2].
    destruct (mapM (select_item index) items (h ++ e1)) as [[k|e] h2];
      simpl in H2; subst h2; simpl; exists (e1 ++ e2); by rewrite app_assoc.
Qed.

Lemma select_grows (arrays : arrays_t) (index : list Z) h :
  ∃ extra, (select arrays index h).2 = h ++ extra.
Proof.
  unfold select.
  destruct arrays as [items|]; [|exists []; simpl; by rewrite app_nil_r].
  destruct (existsb is_none items); [exists []; simpl; by rewrite app_nil_r|].
  rewrite M_bind_run.
  destruct (mapM_select_item_grows index items h) as [extra He].
  destruct (mapM (select_item index) items h) as [[k|e] h1];
    simpl in He; subst h1; simpl; by eexists.
Qed.

Lemma select_absent (arrays : arrays_t) (index : list Z) h :
  arrays = None ∨ (∃ items, arrays = Some items ∧ None ∈ items) →
  select arrays index h = (Ok arrays, h).
Proof.
  intros [->|(items & -> & Hin)]; [done|].
  unfold select. by rewrite existsb_is_none_true.
Qed.

End IndexLemmas.

(** ** The selector *)

Section Selector.
Context {T : Type}.
Implicit Types (h : list (list T)) (a r : ndarray) (index : list Z).

(** C1.  Pass-through: when [arrays] is [None] itself, or a tuple with at
    least one [None] slot, [select] returns [arrays] as it is whatever the
    index, and the store is left as it was: nothing is indexed, no buffer
    is built, no index is checked. *)
Theorem select_pass_through (arrays : arrays_t) index h :
  arrays = None ∨ (∃ items, arrays = Some items ∧ None ∈ items) →
  select arrays index h = (Ok arrays, h).
Proof. apply select_absent. Qed.

(** C2.  Indexing: on a tuple of arrays (no slot absent) of the store and
    an integer index valid for each of them, [select] returns a tuple of
    the same arity whose component [i] is a one-dimensional array holding
    [arrays[i].flatten()[index]]. *)
Theorem select_indexes (arrs : list ndarray) index h :
  Forall (well_formed h) arrs →
  Forall (λ a, Forall (λ j, - Z.of_nat (size a) ≤ j < Z.of_nat (size a)) index) arrs →
  ∃ res h',
    select (Some (Some <$> arrs)) index h = (Ok (Some (Some <$> res)), h') ∧
    length res = length arrs ∧
    ∀ i a r, arrs !! i = Some a → res !! i = Some r →
      shape r = [length index] ∧
      Some <$> flatten h' r = at_index (flatten h a) <$> index.
Proof. apply select_valid_run. Qed.

(** C10.  No bounds check of its own: on arrays of flattened length [n],
    every index in [-n, n) is accepted, and an entry [j] in [-n, 0)
    selects the cell at position [n + j], counted from the end. *)
Theorem select_negative_index (arrs : list ndarray) index h (n : nat) :
  Forall (well_formed h) arrs →
  Forall (λ a, size a = n) arrs →
  Forall (λ j, - Z.of_nat n ≤ j < Z.of_nat n) index →
  ∃ res h',
    select (Some (Some <$> arrs)) index h = (Ok (Some (Some <$> res)), h') ∧
    length res = length arrs ∧
    ∀ i a r k j, arrs !! i = Some a → res !! i = Some r →
      index !! k = Some j → j < 0 →
      is_Some (flatten h' r !! k) ∧
      flatten h' r !! k = flatten h a !! Z.to_nat (Z.of_nat n + j).
Proof.
  intros Hwf Hn Hidx.
  destruct (select_valid_run index arrs h Hwf) as (res & h' & Hsel & Hlen & Hres).
  { eapply Forall_impl; [exact Hn|]. intros a ->. exact Hidx. }
  exists res, h'. split; [done|]. split; [done|].
  intros i a r k j Ha Hr Hk Hj.
  destruct (Hres i a r Ha Hr) as [_ Hat].
  apply (f_equal (.!! k)) in Hat. rewrite !list_lookup_fmap, Hk in Hat. simpl in Hat.
  pose proof (Forall_lookup_1 _ _ _ _ Hidx Hk) as Hj'. simpl in Hj'.
  assert (Hsize : length (flatten h a) = n).
  { pose proof (Forall_lookup_1 _ _ _ _ Hwf Ha) as (cells & Hc & Hl).
    pose proof (Forall_lookup_1 _ _ _ _ Hn Ha) as Hna. simpl in Hna.
    unfold flatten. rewrite Hc. simpl. congruence. }
  unfold at_index in Hat. rewrite decide_False in Hat by lia.
  rewrite decide_True in Hat by lia. rewrite Hsize in Hat.
  destruct (lookup_lt_is_Some_2 (flatten h a) (Z.to_nat (Z.of_nat n + j)))
    as [x Hx]; [lia|].
  rewrite Hx in Hat |- *.
  destruct (flatten h' r !! k) as [y|]; simpl in Hat; [|done].
  split; [by eexists|]. congruence.
Qed.

(** C9.  [select] never changes a buffer of the store, whatever its
    outcome: the input arrays are left as they were.  On a tuple of arrays
    of the store, each array returned is on a buffer built by the call: it
    shares no buffer with the input arrays nor with another returned array,
    and that buffer did not exist before.  (On [None] or a tuple with a
    [None] slot nothing is selected and nothing is built either.) *)
Theorem select_effects (arrays : arrays_t) index h (res : res arrays_t) h' :
  select arrays index h = (res, h') →
  (∀ l cells, h !! l = Some cells → h' !! l = Some cells) ∧
  (∀ arrs out,
      arrays = Some (Some <$> arrs) →
      Forall (λ a, (buffer a < length h)%nat) arrs →
      res = Ok out →
      independent arrays out ∧
      NoDup (buffer <$> arrays_of out) ∧
      Forall (λ r, h !! buffer r = None ∧ is_Some (h' !! buffer r)) (arrays_of out)) ∧
  (arrays = None ∨ (∃ items, arrays = Some items ∧ None ∈ items) →
      res = Ok arrays ∧ h' = h).
Proof.
  intros Hsel. split; [|split].
  - destruct (select_grows arrays index h) as [extra He].
    rewrite Hsel in He. simpl in He. subst h'.
    intros l cells Hl. by apply lookup_app_l_Some.
  - intros arrs out -> Hv ->.
    pose proof (mapM_select_item_run index arrs h Hv) as Hrun.
    unfold select in Hsel. rewrite existsb_is_none_Some, M_bind_run in Hsel.
    destruct (mapM (gather h index) arrs) as [picks|e] eqn:Hg.
    2:{ destruct Hrun as [extra Hrun]. by rewrite Hrun in Hsel. }
    rewrite Hrun in Hsel. injection Hsel as <- <-.
    assert (Hpicks : length picks = length arrs).
    { apply mapM_res_Ok in Hg. symmetry. by eapply Forall2_length. }
    unfold independent, arrays_of. rewrite !omap_Some_id, fresh_buffers.
    split; [|split].
    + intros a r Ha Hr Heq.
      apply (list_elem_of_fmap_2 buffer) in Hr. rewrite fresh_buffers in Hr.
      apply elem_of_seq in Hr.
      rewrite Forall_forall in Hv. specialize (Hv a Ha). simpl in Hv. lia.
    + apply NoDup_seq.
    + apply Forall_forall. intros r Hr.
      apply (list_elem_of_fmap_2 buffer) in Hr. rewrite fresh_buffers in Hr.
      apply elem_of_seq in Hr. split.
      * apply lookup_ge_None. lia.
      * apply lookup_lt_is_Some. rewrite length_app. lia.
  - intros Habs. rewrite select_absent in Hsel by done. by injection Hsel as <- <-.
Qed.

End Selector.

(** ** Two runs of the selector on stores that agree on its input *)

Section Simulation.
Context {T : Type}.
Implicit Types (h : list (list T)) (a r : ndarray) (index : list Z).

Lemma agree_app (arrs : list ndarray) h1 h2 (e1 e2 : list (list T)) :
  agree arrs h1 h2 → agree arrs (h1 ++ e1) (h2 ++ e2).
Proof.
  unfold agree. intros Hag. eapply Forall_impl; [exact Hag|].
  intros a (H1 & H2 & Heq). simpl.
  rewrite !length_app, !lookup_app_l by done. repeat split; [lia|lia|done].
Qed.

Lemma agree_gather (arrs : list ndarray) h1 h2 index :
  agree arrs h1 h2 → mapM (gather h1 index) arrs = mapM (gather h2 index) arrs.
Proof.
  intros Hag. apply mapM_res_ext. eapply Forall_impl; [exact Hag|].
  intros a (_ & _ & Heq). unfold gather. by rewrite Heq.
Qed.

Lemma agree_values (items : tuple_t) h1 h2 :
  agree (omap id items) h1 h2 →
  values_of h1 (Some items) = values_of h2 (Some items).
Proof.
  unfold values_of. simpl. intros Hag. f_equal.
  induction items as [|[a|] items IH]; simpl in *; [done| |].
  - inversion Hag as [|? ? (_ & _ & Heq) Hag']; subst.
    f_equal; [|exact (IH Hag')]. unfold value_of. by rewrite Heq.
  - f_equal. exact (IH Hag).
Qed.

Lemma values_of_app h (extra : list (list T)) (t : arrays_t) :
  valid_in h t → values_of (h ++ extra) t = values_of h t.
Proof.
  destruct t as [items|]; [|done]. unfold valid_in, values_of. simpl.
  intros Hv. f_equal.
  induction items as [|[a|] items IH]; simpl in *; [done| |].
  - inversion Hv as [|? ? Ha Hv']; subst.
    f_equal; [|exact (IH Hv')]. unfold value_of. by rewrite lookup_app_l.
  - f_equal. exact (IH Hv).
Qed.

Lemma valid_in_app h (extra : list (list T)) (t : arrays_t) :
  valid_in h t → valid_in (h ++ extra) t.
Proof.
  unfold valid_in. intros Hv. eapply Forall_impl; [exact Hv|].
  intros r Hr. simpl in *. rewrite length_app. lia.
Qed.

Lemma values_of_fresh h (picks : list (list T)) (m : nat) :
  values_of (h ++ picks) (Some (Some <$> fresh (length h) m (length picks))) =
    Some ((λ p, Some (Some ([m], p))) <$> picks).
Proof.
  unfold values_of. simpl. f_equal.
  revert h. induction picks as [|p picks IH]; intros h; [done|].
  simpl. f_equal.
  - unfold value_of. simpl. rewrite lookup_app_r by lia.
    by rewrite Nat.sub_diag.
  - specialize (IH (h ++ [p])). rewrite length_app in IH. simpl in IH.
    rewrite Nat.add_1_r, <- app_assoc in IH. exact IH.
Qed.

Lemma valid_in_fresh h (picks : list (list T)) (m : nat) :
  valid_in (h ++ picks) (Some (Some <$> fresh (length h) m (length picks))).
Proof.
  unfold valid_in, arrays_of. rewrite omap_Some_id.
  apply Forall_forall. intros r Hr.
  apply (list_elem_of_fmap_2 buffer) in Hr. rewrite fresh_buffers in Hr.
  apply elem_of_seq in Hr. rewrite length_app. lia.
Qed.

(** On stores that agree on the arrays of the tuple, [select] ends the same
    way, and both stores only grow. *)
Lemma select_sim (items : tuple_t) index h1 h2 :
  agree (omap id items) h1 h2 →
  ∃ (o1 o2 : res arrays_t) (e1 e2 : list (list T)),
    select (Some items) index h1 = (o1, h1 ++ e1) ∧
    select (Some items) index h2 = (o2, h2 ++ e2) ∧
    same_outcome (h1 ++ e1) (h2 ++ e2) o1 o2.
Proof.
  intros Hag. unfold select.
  destruct (existsb is_none items) eqn:Hnone.
  - exists (Ok (Some items)), (Ok (Some items)), [], [].
    rewrite !app_nil_r. repeat split; try done.
    + by apply agree_values.
    + eapply Forall_impl; [exact Hag|]. by intros a (? & _).
    + eapply Forall_impl; [exact Hag|]. by intros a (_ & ? & _).
  - apply existsb_is_none_false in Hnone.
    set (arrs := omap id items) in *. rewrite Hnone.
    assert (Hv1 : Forall (λ a, (buffer a < length h1)%nat) arrs).
    { eapply Forall_impl; [exact Hag|]. by intros a (? & _). }
    assert (Hv2 : Forall (λ a, (buffer a < length h2)%nat) arrs).
    { eapply Forall_impl; [exact Hag|]. by intros a (_ & ? & _). }
    pose proof (mapM_select_item_run index arrs h1 Hv1) as Hr1.
    pose proof (mapM_select_item_run index arrs h2 Hv2) as Hr2.
    rewrite <- (agree_gather arrs h1 h2 index Hag) in Hr2.
    rewrite !M_bind_run.
    destruct (mapM (gather h1 index) arrs) as [picks|e] eqn:Hg.
    + rewrite Hr1, Hr2.
      assert (Hlen : length arrs = length picks).
      { apply mapM_res_Ok in Hg. by eapply Forall2_length. }
      rewrite Hlen.
      eexists _, _, picks, picks. split; [reflexivity|]. split; [reflexivity|].
      split; [|split].
      * by rewrite !values_of_fresh.
      * apply valid_in_fresh.
      * apply valid_in_fresh.
    + destruct Hr1 as [e1 Hr1], Hr2 as [e2 Hr2]. rewrite Hr1, Hr2.
      by exists (Raise e), (Raise e), e1, e2.
Qed.

Lemma values3_app h (extra : list (list T)) (o : arrays_t * arrays_t * arrays_t) :
  valid3 h o → values3 (h ++ extra) o = values3 h o.
Proof.
  intros (H1 & H2 & H3). unfold values3.
  by rewrite !values_of_app.
Qed.

Lemma valid3_app h (extra : list (list T)) (o : arrays_t * arrays_t * arrays_t) :
  valid3 h o → valid3 (h ++ extra) o.
Proof. intros (H1 & H2 & H3). repeat split; by apply valid_in_app. Qed.

Lemma agree_app_inv (l1 l2 : tuple_t) h1 h2 :
  agree (omap id (l1 ++ l2)) h1 h2 →
  agree (omap id l1) h1 h2 ∧ agree (omap id l2) h1 h2.
Proof. unfold agree. rewrite omap_app. apply Forall_app. Qed.

Lemma select_args_sim (args : tuple_t * tuple_t * tuple_t) index h1 h2 :
  agree (omap id (args.1.1 ++ args.1.2 ++ args.2)) h1 h2 →
  ∃ (o1 o2 : res (arrays_t * arrays_t * arrays_t)) (e1 e2 : list (list T)),
    select_args args index h1 = (o1, h1 ++ e1) ∧
    select_args args index h2 = (o2, h2 ++ e2) ∧
    same_outcome3 (h1 ++ e1) (h2 ++ e2) o1 o2.
Proof.
  destruct args as [[c d] wt]. cbn [fst snd].
  intros [Hc [Hd Hw]%agree_app_inv]%agree_app_inv.
  unfold select_args. rewrite !M_bind_run.
  destruct (select_sim c index h1 h2 Hc) as (oc1 & oc2 & c1 & c2 & E1 & E2 & Hoc).
  rewrite E1, E2.
  destruct oc1 as [rc1|e1], oc2 as [rc2|e2]; try done.
  2:{ by exists (Raise e1), (Raise e2), c1, c2. }
  destruct Hoc as (Hvc & Hc1 & Hc2). rewrite !M_bind_run.
  destruct (select_sim d index (h1 ++ c1) (h2 ++ c2)) as
    (od1 & od2 & d1 & d2 & E3 & E4 & Hod); [by apply agree_app|].
  rewrite E3, E4.
  destruct od1 as [rd1|e1], od2 as [rd2|e2]; try done.
  2:{ exists (Raise e1), (Raise e2), (c1 ++ d1), (c2 ++ d2).
      by rewrite !app_assoc. }
  destruct Hod as (Hvd & Hd1 & Hd2). rewrite !M_bind_run.
  destruct (select_sim wt index ((h1 ++ c1) ++ d1) ((h2 ++ c2) ++ d2)) as
    (ow1 & ow2 & w1 & w2 & E5 & E6 & How); [by do 2 apply agree_app|].
  rewrite E5, E6.
  destruct ow1 as [rw1|e1], ow2 as [rw2|e2]; try done.
  2:{ exists (Raise e1), (Raise e2), (c1 ++ d1 ++ w1), (c2 ++ d2 ++ w2).
      by rewrite !app_assoc. }
  destruct How as (Hvw & Hw1 & Hw2).
  exists (Ok (rc1, rd1, rw1)), (Ok (rc2, rd2, rw2)), (c1 ++ d1 ++ w1), (c2 ++ d2 ++ w2).
  rewrite !app_assoc. split; [done|]. split; [done|].
  split; [|split].
  - unfold values3. cbn [fst snd].
    assert (values_of (((h1 ++ c1) ++ d1) ++ w1) rc1 = values_of (h1 ++ c1) rc1) as ->.
    { rewrite values_of_app by by apply valid_in_app. by apply values_of_app. }
    assert (values_of (((h2 ++ c2) ++ d2) ++ w2) rc2 = values_of (h2 ++ c2) rc2) as ->.
    { rewrite values_of_app by by apply valid_in_app. by apply values_of_app. }
    rewrite (values_of_app _ w1 rd1), (values_of_app _ w2 rd2) by done.
    by rewrite Hvc, Hvd, Hvw.
  - repeat split; cbn [fst snd]; [|by apply valid_in_app|done].
    rewrite <- app_assoc. by apply valid_in_app.
  - repeat split; cbn [fst snd]; [|by apply valid_in_app|done].
    rewrite <- app_assoc. by apply valid_in_app.
Qed.

End Simulation.

(** ** The splitter *)

Section Splitter.
Context {T X : Type}.
Variable check_fit_input :
  list ndarray → pyarg → pyarg → res (tuple_t * tuple_t * tuple_t).
Variable ShuffleSplit : gmap string pyobj → res (cv_t X).

Lemma select_args_Ok (args : tuple_t * tuple_t * tuple_t) (index : list Z)
    (h h' : list (list T)) (out : arrays_t * arrays_t * arrays_t) :
  select_args args index h = (Ok out, h') ↔
  ∃ h1 h2,
    select (Some args.1.1) index h = (Ok out.1.1, h1) ∧
    select (Some args.1.2) index h1 = (Ok out.1.2, h2) ∧
    select (Some args.2) index h2 = (Ok out.2, h').
Proof.
  destruct args as [[c d] wt], out as [[rc rd] rw]. unfold select_args.
  cbn [fst snd]. split.
  - intros H. rewrite M_bind_run in H.
    destruct (select (Some c) index h) as [[oc|e] h1] eqn:E1; [|done].
    rewrite M_bind_run in H.
    destruct (select (Some d) index h1) as [[od|e] h2] eqn:E2; [|done].
    rewrite M_bind_run in H.
    destruct (select (Some wt) index h2) as [[ow|e] h3] eqn:E3; [|done].
    injection H as <- <- <- <-. by exists h1, h2.
  - intros (h1 & h2 & E1 & E2 & E3).
    rewrite M_bind_run, E1. cbv beta iota.
    rewrite M_bind_run, E2. cbv beta iota.
    rewrite M_bind_run, E3. reflexivity.
Qed.

(** What a returning call of [train_test_split] has done, step by step. *)
Lemma train_test_split_Ok coordinates data weights kwargs (w w' : world T X)
    (train test : arrays_t * arrays_t * arrays_t) :
  train_test_split check_fit_input ShuffleSplit coordinates data weights kwargs w
    = (Ok (train, test), w') ↔
  ∃ args a rest cv tr te suspended x' h1 h2,
    check_fit_input coordinates data weights = Ok args ∧
    args.1.2 = Some a :: rest ∧
    kwargs !! "n_splits" = None ∧
    ShuffleSplit (<["n_splits" := PyInt 1]> kwargs) = Ok cv ∧
    resume (split cv (arange (size a))) (ext w) = Yield (tr, te) suspended x' ∧
    select_args args tr (np w) = (Ok train, h1) ∧
    select_args args te h1 = (Ok test, h2) ∧
    w' = {| np := h2; ext := x' |}.
Proof.
  unfold train_test_split. split.
  - intros H. rewrite bind_lift_run in H.
    destruct (check_fit_input coordinates data weights) as [args|e] eqn:Hc; [|done].
    rewrite bind_lift_run in H.
    destruct (size_of_first args.1.2) as [n|e] eqn:Hn; [|done].
    rewrite bind_lift_run in H. unfold keywords in H.
    destruct (kwargs !! "n_splits") eqn:Hk; [done|].
    rewrite bind_lift_run in H.
    destruct (ShuffleSplit _) as [cv|e] eqn:Hcv; [|done].
    rewrite bind_on_ext_run in H. unfold next in H.
    destruct (resume (split cv (arange n)) (ext w))
      as [[tr te] suspended x'|x'|e x'] eqn:Hs; [|done|done].
    rewrite bind_on_np_run in H. cbn [np ext fst snd] in H.
    destruct (select_args args tr (np w)) as [[train'|e] h1] eqn:Htr; [|done].
    rewrite bind_on_np_run in H. cbn [np ext fst snd] in H.
    destruct (select_args args te h1) as [[test'|e] h2] eqn:Hte; [|done].
    injection H as <- <- <-.
    destruct (args.1.2) as [|[a|] rest] eqn:Hd; try done.
    injection Hn as <-.
    by exists args, a, rest, cv, tr, te, suspended, x', h1, h2.
  - intros (args & a & rest & cv & tr & te & suspended & x' & h1 & h2 &
            Hc & Hd & Hk & Hcv & Hs & Htr & Hte & ->).
    rewrite bind_lift_run, Hc, bind_lift_run, Hd. cbn [size_of_first].
    rewrite bind_lift_run. unfold keywords. rewrite Hk.
    rewrite bind_lift_run, Hcv, bind_on_ext_run. unfold next. rewrite Hs.
    rewrite bind_on_np_run. cbn [np ext fst snd]. rewrite Htr.
    rewrite bind_on_np_run. cbn [np ext fst snd]. rewrite Hte.
    reflexivity.
Qed.

(** C7, as the code has it.  A call of [train_test_split] returns exactly
    when: the input normalizes; [n] is the number of elements of the
    first data component ([data_tuple[0].size]); the caller gave no
    [n_splits]; the shuffle splitter is built from the caller's options
    with [n_splits = 1] added; its iterator over the index sequence
    [0..n-1] is resumed once and yields a partition, which is the one
    selected with.  The iterator is left suspended. *)
Theorem train_test_split_one_split coordinates data weights kwargs (w w' : world T X)
    (train test : arrays_t * arrays_t * arrays_t) :
  train_test_split check_fit_input ShuffleSplit coordinates data weights kwargs w
    = (Ok (train, test), w') ↔
  ∃ args a rest cv tr te suspended x' h1 h2,
    check_fit_input coordinates data weights = Ok args ∧
    args.1.2 = Some a :: rest ∧
    kwargs !! "n_splits" = None ∧
    ShuffleSplit (<["n_splits" := PyInt 1]> kwargs) = Ok cv ∧
    resume (split cv (arange (size a))) (ext w) = Yield (tr, te) suspended x' ∧
    select_args args tr (np w) = (Ok train, h1) ∧
    select_args args te h1 = (Ok test, h2) ∧
    w' = {| np := h2; ext := x' |}.
Proof. apply train_test_split_Ok. Qed.

(** C6.  Determinism: with a seeded splitter and the same integer
    [random_state] among the options, two calls on the same coordinates,
    data and weights end the same way, in whatever state the outside
    world and the rest of the store are: with the same exception, or with
    train and test sets of the same shapes and cells (hence, taking the
    index sequence as a coordinate, with the same index assignment). *)
Theorem train_test_split_deterministic coordinates data weights kwargs
    (seed : Z) (w1 w2 : world T X) :
  seeded ShuffleSplit →
  kwargs !! "random_state" = Some (PyInt seed) →
  (∀ args, check_fit_input coordinates data weights = Ok args →
           agree (omap id (args.1.1 ++ args.1.2 ++ args.2)) (np w1) (np w2)) →
  same_split
    (train_test_split check_fit_input ShuffleSplit coordinates data weights kwargs w1)
    (train_test_split check_fit_input ShuffleSplit coordinates data weights kwargs w2).
Proof.
  intros Hseed Hrs Hag. unfold train_test_split.
  rewrite !bind_lift_run.
  destruct (check_fit_input coordinates data weights) as [args|e]; [|done].
  specialize (Hag args eq_refl).
  rewrite !bind_lift_run.
  destruct (size_of_first args.1.2) as [n|e]; [|done].
  rewrite !bind_lift_run. unfold keywords.
  destruct (kwargs !! "n_splits") eqn:Hk; [done|].
  rewrite !bind_lift_run.
  destruct (ShuffleSplit _) as [cv|e] eqn:Hcv; [|done].
  rewrite !bind_on_ext_run.
  pose proof (Hseed (<["n_splits" := PyInt 1]> kwargs) seed cv (arange n)
                (ext w1) (ext w2)) as Hsame.
  rewrite lookup_insert_ne in Hsame by done. specialize (Hsame Hrs Hcv).
  destruct (next (split cv (arange n)) (ext w1)) as [o1 x1].
  destruct (next (split cv (arange n)) (ext w2)) as [o2 x2].
  simpl in Hsame. subst o2.
  destruct o1 as [[tr te]|e]; [|done].
  rewrite !bind_on_np_run. cbn [np ext fst snd].
  destruct (select_args_sim args tr (np w1) (np w2) Hag)
    as (o1 & o2 & e1 & e2 & E1 & E2 & Ho).
  rewrite E1, E2.
  destruct o1 as [train1|e], o2 as [train2|e']; try done.
  destruct Ho as (Hv & Hv1 & Hv2).
  rewrite !bind_on_np_run. cbn [np ext].
  destruct (select_args_sim args te (np w1 ++ e1) (np w2 ++ e2))
    as (o1 & o2 & f1 & f2 & E3 & E4 & Ho); [by apply agree_app|].
  rewrite E3, E4.
  destruct o1 as [test1|e], o2 as [test2|e']; try done.
  destruct Ho as (Hv' & _ & _).
  unfold same_split. cbn [fst snd np mret M_ret].
  split; [|done].
  by rewrite (values3_app _ f1 train1), (values3_app _ f2 train2).
Qed.

End Splitter.

(** ** The scorer *)

Section Scorer.
Context {T X Sc : Type} `{!ArrayLike Sc}.
Variable check_fit_input :
  list ndarray → pyarg → pyarg → res (tuple_t * tuple_t * tuple_t).
Variable DummyClient : client_t T X Sc.
Variable KFold : gmap string pyobj → res (cv_t X).
Implicit Types (w : world T X) (estimator : estimator_t T X Sc)
  (client : client_t T X Sc) (args : tuple_t * tuple_t * tuple_t)
  (it : iterator X (list Z * list Z))
  (folds : list (list Z * list Z)) (scores : list (work_result Sc)).

(** Induction on an iterator: what it may yield is smaller. *)
Lemma iterator_rest_ind {A} (P : iterator X A → Prop) :
  (∀ i, (∀ x a rest x', resume i x = Yield a rest x' → P rest) → P i) →
  ∀ i, P i.
Proof.
  intros Hstep i.
  induction i using iterator_advance_ind
    with (P0 := λ adv, match adv with Yield _ rest _ => P rest | _ => True end);
    try done.
  apply Hstep. intros x a rest x' Hr. simpl in Hr.
  specialize (H x). by rewrite Hr in H.
Qed.

Lemma score_folds_resume estimator client args it scores w :
  score_folds estimator client args it scores w =
    match resume it (ext w) with
    | Stop x => (Ok scores, {| np := np w; ext := x |})
    | Throw StopIteration x => (Ok scores, {| np := np w; ext := x |})
    | Throw e x => (Raise e, {| np := np w; ext := x |})
    | Yield (train, test) rest x =>
        match on_np (select_args args train) {| np := np w; ext := x |} with
        | (Ok train_data, w1) =>
            match on_np (select_args args test) w1 with
            | (Ok test_data, w2) =>
                match submit client (fit_score estimator train_data test_data) w2 with
                | (Ok sc, w3) => score_folds estimator client args rest (scores ++ [sc]) w3
                | (Raise e, w3) => (Raise e, w3)
                end
            | (Raise e, w2) => (Raise e, w2)
            end
        | (Raise e, w1) => (Raise e, w1)
        end
    end.
Proof.
  destruct it as [r]. cbn [score_folds resume].
  by destruct (r (ext w)) as [[train test] rest x|x|e x].
Qed.

(** The loop on an exhausted iterator, and on one that raises. *)
Lemma score_folds_exhausted estimator client args it scores w x :
  exhausted it (ext w) x →
  score_folds estimator client args it scores w = (Ok scores, {| np := np w; ext := x |}).
Proof. intros [H|H]; by rewrite score_folds_resume, H. Qed.

Lemma score_folds_Throw estimator client args it scores w e x :
  resume it (ext w) = Throw e x →
  e ≠ StopIteration →
  score_folds estimator client args it scores w = (Raise e, {| np := np w; ext := x |}).
Proof. intros H He. rewrite score_folds_resume, H. by destruct e. Qed.

(** Once a first run of folds is scored, the loop goes on from where that
    left the world and the iterator. *)
Lemma score_folds_app estimator client args it pre new scores w wk itk :
  folds_scored estimator client args w it pre new wk itk →
  score_folds estimator client args it scores w =
    score_folds estimator client args itk (scores ++ new) wk.
Proof.
  intros Hs. revert scores.
  induction Hs as [|? ? ? ? ? ? ? ? ? ? ? ? ? ? ? ? Hr E1 E2 E3 _ IH]; intros acc.
  - by rewrite app_nil_r.
  - rewrite score_folds_resume, Hr, E1, E2, E3, IH.
    by rewrite <- app_assoc.
Qed.




(** Past the normalizer and the choice of the splitter (the caller's, or
    the default [KFold(shuffle=True, random_state=0, n_splits=5)]), the
    call is the loop over the iterator of the splitter, and then
    [np.asarray] on the list that the loop has built. *)
Lemma cross_val_score_run estimator coordinates data weights cv
    (client : option (client_t T X Sc)) w args cvobj n :
  check_fit_input coordinates data weights = Ok args →
  match cv with
  | Some c => Ok c
  | None => KFold {[ "shuffle" := PyBool true; "random_state" := PyInt 0;
                     "n_splits" := PyInt 5 ]}
  end = Ok cvobj →
  size_of_first args.1.2 = Ok n →
  cross_val_score check_fit_input DummyClient KFold estimator
    coordinates data weights cv client w =
  match score_folds estimator (default DummyClient client) args
          (split cvobj (arange n)) [] w with
  | (Ok scores, w') => (asarray scores, w')
  | (Raise e, w') => (Raise e, w')
  end.
Proof.
  intros Hc Hcv Hn. unfold cross_val_score.
  rewrite bind_lift_run, Hc.
  assert (Hcv' : ∀ B (f : cv_t X → M (world T X) B),
    (match cv with
     | Some c => mret c
     | None => lift (KFold {[ "shuffle" := PyBool true; "random_state" := PyInt 0;
                              "n_splits" := PyInt 5 ]})
     end ≫= f) w = f cvobj w).
  { intros B f. destruct cv as [c|].
    - by injection Hcv as ->.
    - by rewrite bind_lift_run, Hcv. }
  rewrite Hcv', bind_lift_run, Hn. reflexivity.
Qed.

(** A call that ends with an exception inside the loop. *)
Lemma cross_val_score_raises estimator coordinates data weights cv
    (client : option (client_t T X Sc)) w args cvobj n e we :
  check_fit_input coordinates data weights = Ok args →
  match cv with
  | Some c => Ok c
  | None => KFold {[ "shuffle" := PyBool true; "random_state" := PyInt 0;
                     "n_splits" := PyInt 5 ]}
  end = Ok cvobj →
  size_of_first args.1.2 = Ok n →
  score_folds estimator (default DummyClient client) args
    (split cvobj (arange n)) [] w = (Raise e, we) →
  cross_val_score check_fit_input DummyClient KFold estimator
    coordinates data weights cv client w = (Raise e, we).
Proof.
  intros Hc Hcv Hn H.
  by rewrite (cross_val_score_run _ _ _ _ _ _ _ _ _ _ Hc Hcv Hn), H.
Qed.



End Scorer.

(** C8.  With the immediate client (the default one, or passed by the
    caller), when the folds yielded before some fold are scored and that
    fold's [fit], or its [score] after a successful [fit], raises [e], the
    call of [cross_val_score] ends there with [e] itself, in the world the
    failure left: nothing is caught, nothing is tried again, the generator
    is not resumed and no later fold runs. *)
Theorem cross_val_score_failure_propagates {T X Sc} `{!ArrayLike Sc}
    (check_fit_input : list ndarray → pyarg → pyarg → res (tuple_t * tuple_t * tuple_t))
    (KFold : gmap string pyobj → res (cv_t X))
    (estimator : estimator_t T X Sc) coordinates data weights cv
    (client : option (client_t T X Sc)) (w : world T X)
    args cvobj n pre scores wk itk train test rest x train_data w1 test_data w2 e we :
  check_fit_input coordinates data weights = Ok args →
  match cv with
  | Some c => Ok c
  | None => KFold {[ "shuffle" := PyBool true; "random_state" := PyInt 0;
                     "n_splits" := PyInt 5 ]}
  end = Ok cvobj →
  size_of_first args.1.2 = Ok n →
  client = None ∨ client = Some Utils.DummyClient →
  folds_scored estimator Utils.DummyClient args
    w (split cvobj (arange n)) pre scores wk itk →
  resume itk (ext wk) = Yield (train, test) rest x →
  on_np (select_args args train) {| np := np wk; ext := x |} = (Ok train_data, w1) →
  on_np (select_args args test) w1 = (Ok test_data, w2) →
  fit estimator train_data.1.1 train_data.1.2 train_data.2 w2 = (Raise e, we) ∨
    (∃ wf, fit estimator train_data.1.1 train_data.1.2 train_data.2 w2 = (Ok (), wf) ∧
           score estimator test_data.1.1 test_data.1.2 test_data.2 wf = (Raise e, we)) →
  cross_val_score check_fit_input Utils.DummyClient KFold estimator
    coordinates data weights cv client w = (Raise e, we).
Proof.
  intros Hc Hcv Hn Hcl Hpre Hr E1 E2 Hfail.
  apply (cross_val_score_raises _ _ _ _ _ _ _ _ _ _ _ _ _ _ _ Hc Hcv Hn).
  assert (default Utils.DummyClient client = Utils.DummyClient) as ->.
  { by destruct Hcl as [->| ->]. }
  rewrite (score_folds_app _ _ _ _ _ _ _ _ _ _ Hpre), score_folds_resume, Hr, E1, E2.
  assert (fit_score estimator train_data test_data w2 = (Raise e, we)) as Hfs.
  { destruct train_data as [[c d] wt], test_data as [[c' d'] wt'].
    unfold fit_score. rewrite M_bind_run. cbn [fst snd] in Hfail.
    destruct Hfail as [->|(wf & -> & ->)]; done. }
  unfold Utils.DummyClient. cbn [submit]. by rewrite M_bind_run, Hfs.
Qed.

(** ** The splitter on the normalized input *)

Lemma check_fit_input_no_weights coordinates data args :
  Base.check_fit_input coordinates data ArgNone = Ok args → args.2 = [None].
Proof.
  unfold Base.check_fit_input. cbn [Base.check_data forallb is_none andb].
  repeat case_match; try done; by intros [= <-].
Qed.

(** C5.  Without weights: when [weights] is [None], the weights slot of the
    train set and of the test set that [train_test_split] returns is the
    normalized absent weights, a tuple holding the absent marker, as it
    was before selection. *)
Theorem train_test_split_without_weights {T X}
    (ShuffleSplit : gmap string pyobj → res (cv_t X))
    coordinates data kwargs (w w' : world T X)
    (train test : arrays_t * arrays_t * arrays_t) :
  train_test_split Base.check_fit_input ShuffleSplit coordinates data ArgNone kwargs w
    = (Ok (train, test), w') →
  ∃ args,
    Base.check_fit_input coordinates data ArgNone = Ok args ∧
    Forall (λ i, i = None) args.2 ∧
    train.2 = Some args.2 ∧ test.2 = Some args.2.
Proof.
  intros (args & a & rest & cv & tr & te & suspended & x' & h1 & h2 &
          Hc & _ & _ & _ & _ & Htr & Hte & _)%train_test_split_Ok.
  exists args. split; [done|].
  apply check_fit_input_no_weights in Hc.
  apply select_args_Ok in Htr as (? & ha & _ & _ & Htr).
  apply select_args_Ok in Hte as (? & hb & _ & _ & Hte).
  rewrite Hc in *. cbn in Htr, Hte.
  injection Htr as <- _. injection Hte as <- _.
  repeat split; by repeat constructor.
Qed.

(** The generator seeded with 0 gives out the first words of the reference
    implementation of MT19937, and the permutations of ten points are the
    ones that [RandomState(0)] and [RandomState(42)] are known to give. *)
Lemma RandomState_reference_values :
  (let (a, st) := Mtrand.rk_random (Mtrand.rk_seed 0) in
   let (b, _) := Mtrand.rk_random st in (a, b)) = (2357136044, 2546248239) ∧
  fst <$> Mtrand.permutation 4 10 (Mtrand.rk_seed 0) = Some [2; 8; 4; 9; 1; 6; 7; 3; 0; 5] ∧
  fst <$> Mtrand.permutation 4 10 (Mtrand.rk_seed 42) = Some [8; 1; 5; 0; 7; 2; 9; 4; 3; 6].
Proof. repeat split; vm_compute; reflexivity. Qed.

(** The shuffle splitter honours the contract of a seeded splitter: with an
    integer [random_state] it draws from a generator of its own. *)
Lemma ShuffleSplit_seeded (bound : nat) : seeded (Sklearn.ShuffleSplit bound).
Proof.
  intros kw seed cv indices x1 x2 Hseed Hcv.
  unfold Sklearn.ShuffleSplit in Hcv. case_match; [|done]. injection Hcv as <-.
  cbn [split]. unfold next, Sklearn.iter_indices. cbn [resume].
  destruct (Sklearn.validate_shuffle_split _ _ _) as [[n_train n_test]|e]; [|done].
  rewrite Hseed. cbn [Sklearn.check_random_state].
  destruct ((0 <=? seed) && (seed <=? 4294967295)); [|done].
  destruct (Sklearn.range _) as [[|k]|e]; [done| |done].
  cbn [Sklearn.rounds resume Sklearn.draw].
  destruct (Mtrand.permutation _ _ _) as [[p st]|]; done.
Qed.

(** C4.  The docstring scenario.  With [random_state=0], scikit-learn's
    [ShuffleSplit] seeds a Mersenne Twister with 0 and permutes the four
    positions into [2, 3, 1, 0]; one point in ten, rounded up, is held
    out, so that the test index is [2] and the train indices are
    [3, 1, 0], whatever the state of the outside world; and
    [train_test_split] returns the train and test sets of the docstring.
    (The rejection loops of the permutation need two draws at most.) *)
Theorem train_test_split_docstring (bound : nat) (x : Sklearn.numpy_random) :
  (2 ≤ bound)%nat →
  ∃ cv suspended train test,
    Sklearn.ShuffleSplit bound (<["n_splits" := PyInt 1]> doc_options) = Ok cv ∧
    resume (split cv (arange 4)) x = Yield ([3; 1; 0], [2]) suspended x ∧
    train_test_split Base.check_fit_input (Sklearn.ShuffleSplit bound)
      doc_coordinates doc_data doc_weights doc_options {| np := doc_heap; ext := x |}
      = (Ok (train, test),
         {| np := doc_heap ++ [ [3; 1; 0]; [-1; -3; -4]; [7; 3; 1]; [6; 2; 0];
                                [1; 1; 1]; [1; 2; 1];
                                [2]; [-2]; [5]; [4]; [2]; [1] ];
            ext := x |}) ∧
    train = (Some (Some <$> fresh 6 3 2), Some (Some <$> fresh 8 3 2),
             Some (Some <$> fresh 10 3 2)) ∧
    test = (Some (Some <$> fresh 12 1 2), Some (Some <$> fresh 14 1 2),
            Some (Some <$> fresh 16 1 2)) ∧
    let h' := doc_heap ++ [ [3; 1; 0]; [-1; -3; -4]; [7; 3; 1]; [6; 2; 0];
                            [1; 1; 1]; [1; 2; 1];
                            [2]; [-2]; [5]; [4]; [2]; [1] ] in
    cells_of h' train.1.1 = [[3; 1; 0]; [-1; -3; -4]] ∧
    cells_of h' train.1.2 = [[7; 3; 1]; [6; 2; 0]] ∧
    cells_of h' train.2 = [[1; 1; 1]; [1; 2; 1]] ∧
    cells_of h' test.1.1 = [[2]; [-2]] ∧
    cells_of h' test.1.2 = [[5]; [4]] ∧
    cells_of h' test.2 = [[2]; [1]].
Proof.
  destruct bound as [|[|bound]]; [lia|lia|]. intros _.
  exists {| split := λ indices,
              Sklearn.iter_indices (S (S bound)) (<["n_splits" := PyInt 1]> doc_options)
                (length indices) |}.
  eexists _, _, _.
  split.
  { unfold Sklearn.ShuffleSplit.
    assert (forallb (λ k, bool_decide (k ∈ Sklearn.parameters))
              (map_to_list (<["n_splits" := PyInt 1]> doc_options)).*1 = true) as ->
      by (vm_compute; reflexivity).
    reflexivity. }
  split.
  { cbn [split]. vm_compute. reflexivity. }
  split; [vm_compute; reflexivity|].
  split; [reflexivity|]. split; [reflexivity|].
  repeat split; reflexivity.
Qed.

(** C7, as the spec has it, fails on gridded data: for a data component
    of shape (2, 3), [len] is 2, and the splitter is asked to partition the
    six indices 0..5. *)
Lemma train_test_split_counts_elements :
  ∃ train test w',
    train_test_split Base.check_fit_input recording_splitter
      [grid_array 0; grid_array 1] (ArgArray (grid_array 2)) ArgNone ∅
      {| np := grid_heap; ext := [] |} = (Ok (train, test), w') ∧
    ext w' = [0; 1; 2; 3; 4; 5] ∧
    arange (len (grid_array 2)) = [0; 1].
Proof.
  eexists _, _, _. split; [vm_compute; reflexivity|]. split; reflexivity.
Qed.

(** ** The theorems at concrete inputs *)

(** [select((a, None), [7])]: the index is never looked at. *)
Lemma select_pass_through_witness :
  select partly_absent [7] heap_3 = (Ok partly_absent, heap_3).
Proof.
  apply select_pass_through. right. exists [Some array_3; None].
  split; [reflexivity|]. apply list_elem_of_further, list_elem_of_here.
Defined.

(** The docstring of [select]: [select((arange(5), arange(-3, 2)), [1, 3])]. *)
Lemma select_indexes_witness :
  ∃ (res : list ndarray) (h' : list (list Z)),
    select (Some (Some <$> arrays_5)) [1; 3] heap_5 = (Ok (Some (Some <$> res)), h') ∧
    length res = length arrays_5 ∧
    ∀ i a r, arrays_5 !! i = Some a → res !! i = Some r →
      shape r = [length [1; 3]] ∧
      Some <$> flatten h' r = at_index (flatten heap_5 a) <$> [1; 3].
Proof.
  apply (select_indexes arrays_5 [1; 3] heap_5).
  - repeat constructor; eexists; split; reflexivity.
  - repeat constructor; vm_compute; intros [=].
Defined.

Lemma select_negative_index_witness :
  ∃ (res : list ndarray) (h' : list (list Z)),
    select (Some (Some <$> arrays_5)) [-1; 4; -5] heap_5 = (Ok (Some (Some <$> res)), h') ∧
    length res = length arrays_5 ∧
    ∀ i a r k j, arrays_5 !! i = Some a → res !! i = Some r →
      [-1; 4; -5] !! k = Some j → j < 0 →
      is_Some (flatten h' r !! k) ∧
      flatten h' r !! k = flatten heap_5 a !! Z.to_nat (Z.of_nat 5 + j).
Proof.
  apply (select_negative_index arrays_5 [-1; 4; -5] heap_5 5).
  - repeat constructor; eexists; split; reflexivity.
  - repeat constructor.
  - repeat constructor; vm_compute; intros [=].
Defined.

(** The docstring call again: the two arrays keep their cells, and the two
    arrays returned are on the new buffers 2 and 3. *)
Lemma select_effects_witness :
  cells_of (heap_5 ++ [[1; 3]; [-2; 0]]) (Some (Some <$> arrays_5)) = heap_5 ∧
  independent (Some (Some <$> arrays_5)) (Some (Some <$> fresh 2 2 2)).
Proof.
  assert (Hrun : select (Some (Some <$> arrays_5)) [1; 3] heap_5 =
                   (Ok (Some (Some <$> fresh 2 2 2)), heap_5 ++ [[1; 3]; [-2; 0]]))
    by reflexivity.
  destruct (select_effects _ _ _ _ _ Hrun) as (Hkeep & Hnew & _).
  split.
  - change (cells_of (heap_5 ++ [[1; 3]; [-2; 0]]) (Some (Some <$> arrays_5)))
      with [ default [] ((heap_5 ++ [[1; 3]; [-2; 0]]) !! 0%nat);
             default [] ((heap_5 ++ [[1; 3]; [-2; 0]]) !! 1%nat) ].
    by rewrite (Hkeep 0%nat _ eq_refl), (Hkeep 1%nat _ eq_refl).
  - apply (Hnew arrays_5 _ eq_refl); [repeat constructor|reflexivity].
Defined.

Lemma train_test_split_deterministic_witness :
  same_split
    (train_test_split Base.check_fit_input doc_splitter
       doc_coordinates doc_data doc_weights doc_options
       {| np := doc_heap; ext := 0%nat |})
    (train_test_split Base.check_fit_input doc_splitter
       doc_coordinates doc_data doc_weights doc_options
       {| np := doc_heap ++ [[42]]; ext := 7%nat |}).
Proof.
  apply (train_test_split_deterministic Base.check_fit_input doc_splitter
           doc_coordinates doc_data doc_weights doc_options 0).
  - intros kw seed cv indices x1 x2 _ [= <-]. reflexivity.
  - reflexivity.
  - intros args H. vm_compute in H. injection H as <-.
    repeat constructor.
Defined.

Lemma train_test_split_docstring_witness :
  ∃ train test (w' : world Z Sklearn.numpy_random),
    train_test_split Base.check_fit_input (Sklearn.ShuffleSplit 2)
      doc_coordinates doc_data doc_weights doc_options
      {| np := doc_heap; ext := numpy_42 |} = (Ok (train, test), w') ∧
    cells_of (np w') train.1.1 = [[3; 1; 0]; [-1; -3; -4]] ∧
    cells_of (np w') train.1.2 = [[7; 3; 1]; [6; 2; 0]] ∧
    cells_of (np w') train.2 = [[1; 1; 1]; [1; 2; 1]] ∧
    cells_of (np w') test.1.1 = [[2]; [-2]] ∧
    cells_of (np w') test.1.2 = [[5]; [4]] ∧
    cells_of (np w') test.2 = [[2]; [1]].
Proof.
  destruct (train_test_split_docstring 2 numpy_42 (le_n 2))
    as (cv & suspended & train & test & _ & _ & Hrun & _ & _ & Hcells).
  exists train, test. eexists. split; [exact Hrun|]. exact Hcells.
Defined.

(** The second example of the docstring: one data component, no weights. *)
Lemma train_test_split_without_weights_witness :
  ∃ train test (w' : world Z ()),
    train_test_split Base.check_fit_input doc_splitter
      doc_coordinates (ArgArray (doc_array 2)) ArgNone doc_options
      {| np := doc_heap; ext := () |} = (Ok (train, test), w') ∧
    train.2 = Some [None] ∧ test.2 = Some [None].
Proof.
  eexists _, _, _. split; [vm_compute; reflexivity|].
  destruct (train_test_split_without_weights doc_splitter
              doc_coordinates (ArgArray (doc_array 2)) doc_options
              {| np := doc_heap; ext := () |} _ _ _ eq_refl)
    as (args & Hc & _ & Htr & Hte).
  vm_compute in Hc. injection Hc as <-. exact (conj Htr Hte).
Defined.


Lemma cross_val_score_failure_propagates_witness :
  ∃ we : world Z nat,
    cross_val_score Base.check_fit_input Utils.DummyClient no_KFold fit_once_estimator
      doc_coordinates doc_data doc_weights (Some two_folds) None
      {| np := doc_heap; ext := 0%nat |} = (Raise (Failure 1), we).
Proof.
  eexists.
  eapply (cross_val_score_failure_propagates Base.check_fit_input no_KFold
            fit_once_estimator doc_coordinates doc_data doc_weights
            (Some two_folds) None {| np := doc_heap; ext := 0%nat |}
            _ two_folds 4 [([1; 2; 3], [0])]).
  - reflexivity.
  - reflexivity.
  - reflexivity.
  - by left.
  - econstructor; [reflexivity|reflexivity|reflexivity|reflexivity|constructor].
  - reflexivity.
  - reflexivity.
  - reflexivity.
  - left. reflexivity.
Defined.

(** ** Further properties of the selector *)

Section SelectorMore.
Context {T : Type}.
Implicit Types (h : list (list T)) (a r : ndarray) (index : list Z) (cells : list T).

Lemma read_cell_out_of_range cells (j : Z) :
  ¬ in_range (length cells) j → read_cell cells (length cells) j = Raise IndexError.
Proof.
  unfold in_range, read_cell, normalize_index. intros Hj.
  by rewrite !decide_False by lia.
Qed.

(** Reading the cells of an index either succeeds, every entry being in
    range, or raises [IndexError], some entry being out of range. *)
Lemma mapM_read_cell_outcome cells index :
  (Forall (in_range (length cells)) index ∧
   ∃ picked, mapM (read_cell cells (length cells)) index = Ok picked ∧
             Some <$> picked = at_index cells <$> index) ∨
  (Exists (λ j, ¬ in_range (length cells) j) index ∧
   mapM (read_cell cells (length cells)) index = Raise IndexError).
Proof.
  induction index as [|j index IH].
  - left. split; [constructor|]. by exists [].
  - destruct (decide (in_range (length cells) j)) as [Hj|Hj].
    + destruct (read_cell_valid cells j Hj) as (x & Hx & Hat).
      destruct IH as [(Hall & picked & Hp & Hv)|(Hex & Hp)].
      * left. split; [by constructor|]. exists (x :: picked). split.
        -- simpl. by rewrite Hx, Hp.
        -- by rewrite !fmap_cons, Hat, Hv.
      * right. split; [by apply Exists_cons_tl|]. simpl. by rewrite Hx, Hp.
    + right. split; [by apply Exists_cons_hd|].
      simpl. by rewrite read_cell_out_of_range.
Qed.

Lemma gather_outcome h index a :
  well_formed h a →
  (Forall (in_range (size a)) index ∧
   ∃ picked, gather h index a = Ok picked ∧
             Some <$> picked = at_index (flatten h a) <$> index) ∨
  (Exists (λ j, ¬ in_range (size a) j) index ∧ gather h index a = Raise IndexError).
Proof.
  intros (cells & Hc & Hlen). unfold gather, flatten. rewrite Hc. simpl.
  rewrite <- Hlen. apply mapM_read_cell_outcome.
Qed.

Lemma gather_all_outcome h index (arrs : list ndarray) :
  Forall (well_formed h) arrs →
  (Forall (λ a, Forall (in_range (size a)) index) arrs ∧
   ∃ picks, mapM (gather h index) arrs = Ok picks ∧
            Forall2 (λ a p, Some <$> p = at_index (flatten h a) <$> index) arrs picks) ∨
  (Exists (λ a, Exists (λ j, ¬ in_range (size a) j) index) arrs ∧
   mapM (gather h index) arrs = Raise IndexError).
Proof.
  induction 1 as [|a arrs Ha _ IH].
  - left. split; [constructor|]. exists []. split; [done|constructor].
  - destruct (gather_outcome h index a Ha) as [(Hin & p & Hg & Hat)|(Hout & Hg)].
    + destruct IH as [(Hall & picks & Hp & Hv)|(Hex & Hp)].
      * left. split; [by constructor|]. exists (p :: picks). split.
        -- simpl. by rewrite Hg, Hp.
        -- by constructor.
      * right. split; [by apply Exists_cons_tl|]. simpl. by rewrite Hg, Hp.
    + right. split; [by apply Exists_cons_hd|]. simpl. by rewrite Hg.
Qed.

(** What a call on arrays of the store comes to: new arrays on the next
    buffers, holding the indexed cells, or [IndexError]. *)
Lemma select_outcome (arrs : list ndarray) index h :
  Forall (well_formed h) arrs →
  (Forall (λ a, Forall (in_range (size a)) index) arrs ∧
   ∃ picks,
     select (Some (Some <$> arrs)) index h =
       (Ok (Some (Some <$> fresh (length h) (length index) (length arrs))), h ++ picks) ∧
     Forall2 (λ a p, Some <$> p = at_index (flatten h a) <$> index) arrs picks) ∨
  (Exists (λ a, Exists (λ j, ¬ in_range (size a) j) index) arrs ∧
   ∃ extra, select (Some (Some <$> arrs)) index h = (Raise IndexError, h ++ extra)).
Proof.
  intros Hwf.
  assert (Hv : Forall (λ a, (buffer a < length h)%nat) arrs).
  { eapply Forall_impl; [exact Hwf|]. apply well_formed_lt. }
  pose proof (mapM_select_item_run index arrs h Hv) as Hrun.
  unfold select. rewrite existsb_is_none_Some, M_bind_run.
  destruct (gather_all_outcome h index arrs Hwf) as [(Hall & picks & Hg & Hp)|(Hex & Hg)];
    rewrite Hg in Hrun.
  - left. split; [done|]. exists picks. by rewrite Hrun.
  - right. split; [done|]. destruct Hrun as [extra Hrun]. exists extra. by rewrite Hrun.
Qed.

(** X1.  Bounds: on arrays of the store, [select] returns exactly when
    every entry of the index is in range for every array; when some entry
    is out of range for some array it raises [IndexError], and nothing
    else can be raised. *)
Theorem select_index_error (arrs : list ndarray) index h :
  Forall (well_formed h) arrs →
  (Forall (λ a, Forall (in_range (size a)) index) arrs ∧
   ∃ (res : list ndarray) h',
     select (Some (Some <$> arrs)) index h = (Ok (Some (Some <$> res)), h')) ∨
  (Exists (λ a, Exists (λ j, ¬ in_range (size a) j) index) arrs ∧
   ∃ h', select (Some (Some <$> arrs)) index h = (Raise IndexError, h')).
Proof.
  intros Hwf.
  destruct (select_outcome arrs index h Hwf) as [(Hall & picks & Hs & _)|(Hex & extra & Hs)].
  - left. split; [done|]. by eexists _, _.
  - right. split; [done|]. by eexists.
Qed.

Lemma at_index_arange cells :
  at_index cells <$> arange (length cells) = Some <$> cells.
Proof.
  apply list_eq. intros i. unfold arange.
  rewrite <- list_fmap_compose, !list_lookup_fmap.
  destruct (decide (i < length cells)%nat) as [Hi|Hi].
  - rewrite lookup_seq_lt by done. simpl.
    unfold at_index. rewrite decide_True by lia. rewrite Nat2Z.id.
    destruct (lookup_lt_is_Some_2 cells i Hi) as [x Hx]. by rewrite Hx.
  - rewrite lookup_seq_ge by lia. by rewrite lookup_ge_None_2 by lia.
Qed.

Lemma arange_in_range (n : nat) : Forall (in_range n) (arange n).
Proof.
  apply Forall_forall. intros j Hj. unfold arange in Hj.
  apply list_elem_of_fmap in Hj as (i & -> & Hi). apply elem_of_seq in Hi.
  unfold in_range. lia.
Qed.

Lemma fmap_Some_inj (l1 l2 : list T) : Some <$> l1 = Some <$> l2 → l1 = l2.
Proof. intros H. apply (f_equal (omap id)) in H. by rewrite !omap_Some_id in H. Qed.

Lemma fmap_Some_Permutation (l1 l2 : list T) : Some <$> l1 ≡ₚ Some <$> l2 → l1 ≡ₚ l2.
Proof.
  intros H. apply (omap_Permutation id) in H. by rewrite !omap_Some_id in H.
Qed.

(** X2.  The whole index: on arrays of [n] elements, selecting with
    [0..n-1] returns, slot by slot, a one-dimensional copy holding the
    flattened cells of the input. *)
Theorem select_arange_flattens (arrs : list ndarray) h (n : nat) :
  Forall (well_formed h) arrs →
  Forall (λ a, size a = n) arrs →
  ∃ (res : list ndarray) h',
    select (Some (Some <$> arrs)) (arange n) h = (Ok (Some (Some <$> res)), h') ∧
    Forall (λ r, shape r = [n]) res ∧
    cells_of h' (Some (Some <$> res)) = cells_of h (Some (Some <$> arrs)).
Proof.
  intros Hwf Hn.
  destruct (select_valid_run (arange n) arrs h Hwf) as (res & h' & Hs & Hlen & Hres).
  { eapply Forall_impl; [exact Hn|]. intros a ->. apply arange_in_range. }
  exists res, h'. split; [done|].
  assert (Hshape : length (arange n) = n).
  { unfold arange. by rewrite length_fmap, length_seq. }
  split.
  - apply Forall_lookup. intros i r Hr.
    destruct (lookup_lt_is_Some_2 arrs i) as [a Ha].
    { rewrite <- Hlen. by eapply lookup_lt_Some. }
    destruct (Hres i a r Ha Hr) as [-> _]. by rewrite Hshape.
  - unfold cells_of, arrays_of. rewrite !omap_Some_id.
    apply list_eq. intros i. rewrite !list_lookup_fmap.
    destruct (arrs !! i) as [a|] eqn:Ha.
    + destruct (lookup_lt_is_Some_2 res i) as [r Hr].
      { rewrite Hlen. by eapply lookup_lt_Some. }
      rewrite Hr. simpl. f_equal.
      destruct (Hres i a r Ha Hr) as [_ Hat].
      pose proof (Forall_lookup_1 _ _ _ _ Hwf Ha) as (cells & Hc & Hl).
      pose proof (Forall_lookup_1 _ _ _ _ Hn Ha) as Hna. simpl in Hna.
      assert (Hfl : flatten h a = cells) by (unfold flatten; by rewrite Hc).
      rewrite Hfl in Hat |- *.
      assert (n = length cells) as -> by congruence.
      rewrite at_index_arange in Hat. by apply fmap_Some_inj.
    + rewrite (lookup_ge_None_2 res i); [done|].
      rewrite Hlen. by apply lookup_ge_None.
Qed.

(** X3.  Shuffling: on arrays of [n] elements, selecting with a
    permutation of [0..n-1] returns, slot by slot, a permutation of the
    flattened cells: no cell is lost, none is repeated. *)
Theorem select_permutation (arrs : list ndarray) index h (n : nat) :
  Forall (well_formed h) arrs →
  Forall (λ a, size a = n) arrs →
  index ≡ₚ arange n →
  ∃ (res : list ndarray) h',
    select (Some (Some <$> arrs)) index h = (Ok (Some (Some <$> res)), h') ∧
    length res = length arrs ∧
    ∀ i a r, arrs !! i = Some a → res !! i = Some r →
      flatten h' r ≡ₚ flatten h a.
Proof.
  intros Hwf Hn Hperm.
  destruct (select_valid_run index arrs h Hwf) as (res & h' & Hs & Hlen & Hres).
  { eapply Forall_impl; [exact Hn|]. intros a ->.
    rewrite Hperm. apply arange_in_range. }
  exists res, h'. split; [done|]. split; [done|].
  intros i a r Ha Hr. destruct (Hres i a r Ha Hr) as [_ Hat].
  pose proof (Forall_lookup_1 _ _ _ _ Hwf Ha) as (cells & Hc & Hl).
  pose proof (Forall_lookup_1 _ _ _ _ Hn Ha) as Hna. simpl in Hna.
  assert (Hfl : flatten h a = cells) by (unfold flatten; by rewrite Hc).
  rewrite Hfl in Hat |- *.
  apply fmap_Some_Permutation. rewrite Hat, Hperm.
  assert (n = length cells) as -> by congruence.
  by rewrite at_index_arange.
Qed.

Lemma fresh_flatten h (picks : list (list T)) (m : nat) :
  flatten (h ++ picks) <$> fresh (length h) m (length picks) = picks.
Proof.
  revert h. induction picks as [|p picks IH]; intros h; [done|].
  simpl. f_equal.
  - unfold flatten. simpl. rewrite lookup_app_r by lia.
    by rewrite Nat.sub_diag.
  - specialize (IH (h ++ [p])). rewrite length_app in IH. simpl in IH.
    rewrite Nat.add_1_r, <- app_assoc in IH. exact IH.
Qed.

Lemma fresh_size (base m k : nat) : Forall (λ r, size r = m) (fresh base m k).
Proof.
  revert base. induction k as [|k IH]; intros base; constructor; [|apply IH].
  unfold size, ndarray_size. simpl. lia.
Qed.

Lemma fresh_well_formed h (picks : list (list T)) (m : nat) :
  Forall (λ p, length p = m) picks →
  Forall (well_formed (h ++ picks)) (fresh (length h) m (length picks)).
Proof.
  intros Hp. apply Forall_lookup. intros i r Hr.
  assert (Hi : (i < length picks)%nat).
  { apply lookup_lt_Some in Hr. by rewrite fresh_length in Hr. }
  rewrite fresh_lookup in Hr by done. injection Hr as <-.
  destruct (lookup_lt_is_Some_2 picks i Hi) as [p Hpi].
  exists p. simpl. split.
  - rewrite lookup_app_r by lia.
    by replace (length h + i - length h)%nat with i by lia.
  - pose proof (Forall_lookup_1 _ _ _ _ Hp Hpi) as Hl. simpl in Hl.
    unfold size, ndarray_size. simpl. lia.
Qed.

Lemma at_index_is_Some {A} (l : list A) (j : Z) :
  in_range (length l) j → is_Some (at_index l j).
Proof.
  unfold in_range, at_index. intros Hj.
  case_decide.
  - apply lookup_lt_is_Some. lia.
  - rewrite decide_True by lia. apply lookup_lt_is_Some. lia.
Qed.

Lemma at_index_elem_of {A} (l : list A) (j : Z) (x : A) :
  at_index l j = Some x → x ∈ l.
Proof.
  unfold at_index. intros H. repeat case_decide; try done;
    by eapply list_elem_of_lookup_2.
Qed.

(** Indexing a list of picked values is picking at the indexed entry. *)
Lemma at_index_picked {A B} (f : A → option B) (l : list A) (p : list B) (j : Z) :
  Some <$> p = f <$> l → at_index p j = at_index l j ≫= f.
Proof.
  intros Hp.
  assert (Hlen : length p = length l).
  { apply (f_equal length) in Hp. by rewrite !length_fmap in Hp. }
  assert (Hk : ∀ k, p !! k = l !! k ≫= f).
  { intros k. apply (f_equal (.!! k)) in Hp. rewrite !list_lookup_fmap in Hp.
    destruct (p !! k), (l !! k); simpl in *; congruence. }
  unfold at_index. rewrite Hlen. repeat case_decide; by rewrite ?Hk.
Qed.

Lemma at_index_compose (cells p1 : list T) index1 index2 :
  Some <$> p1 = at_index cells <$> index1 →
  Forall (in_range (length index1)) index2 →
  at_index p1 <$> index2 = at_index cells <$> compose_index index1 index2.
Proof.
  intros Hp. unfold compose_index.
  induction 1 as [|j index2 Hj _ IH]; [done|].
  destruct (at_index_is_Some index1 j Hj) as [j1 Hj1].
  rewrite fmap_cons. cbn [omap list_omap]. rewrite Hj1. cbn [id].
  rewrite fmap_cons. f_equal; [|exact IH].
  rewrite (at_index_picked _ _ _ _ Hp), Hj1. done.
Qed.

Lemma compose_index_in_range (n : nat) index1 index2 :
  Forall (in_range n) index1 → Forall (in_range n) (compose_index index1 index2).
Proof.
  intros H1. apply Forall_forall. intros j Hj. unfold compose_index in Hj.
  apply list_elem_of_omap in Hj as (j2 & _ & Hat).
  apply at_index_elem_of in Hat.
  by eapply Forall_forall in H1.
Qed.

Lemma picks_lengths h index (arrs : list ndarray) (picks : list (list T)) :
  Forall2 (λ a p, Some <$> p = at_index (flatten h a) <$> index) arrs picks →
  Forall (λ p, length p = length index) picks.
Proof.
  induction 1 as [|a p arrs picks Hp _ IH]; constructor; [|done].
  apply (f_equal length) in Hp. by rewrite !length_fmap in Hp.
Qed.

(** X4.  Selecting twice is selecting once: on arrays of the store,
    selecting with [index1] and then selecting from the result with
    [index2] gives arrays with the same cells as selecting once with
    [index1[index2]]. *)
Theorem select_composes (arrs : list ndarray) index1 index2 h :
  Forall (well_formed h) arrs →
  Forall (λ a, Forall (in_range (size a)) index1) arrs →
  Forall (in_range (length index1)) index2 →
  ∃ (res1 res2 res3 : list ndarray) h1 h2 h3,
    select (Some (Some <$> arrs)) index1 h = (Ok (Some (Some <$> res1)), h1) ∧
    select (Some (Some <$> res1)) index2 h1 = (Ok (Some (Some <$> res2)), h2) ∧
    select (Some (Some <$> arrs)) (compose_index index1 index2) h
      = (Ok (Some (Some <$> res3)), h3) ∧
    cells_of h2 (Some (Some <$> res2)) = cells_of h3 (Some (Some <$> res3)).
Proof.
  intros Hwf H1 H2.
  destruct (select_outcome arrs index1 h Hwf) as [(_ & picks1 & Hs1 & Hp1)|(Hex & _)].
  2:{ exfalso. apply Exists_exists in Hex as (a & Ha & Hex).
      apply Exists_exists in Hex as (j & Hj & Hout).
      rewrite Forall_forall in H1. specialize (H1 a Ha).
      rewrite Forall_forall in H1. by apply Hout, H1. }
  assert (Hl1 : length picks1 = length arrs) by (symmetry; by eapply Forall2_length).
  set (res1 := fresh (length h) (length index1) (length arrs)) in *.
  assert (Hwf1 : Forall (well_formed (h ++ picks1)) res1).
  { unfold res1. rewrite <- Hl1. apply fresh_well_formed. by eapply picks_lengths. }
  destruct (select_outcome res1 index2 (h ++ picks1) Hwf1)
    as [(_ & picks2 & Hs2 & Hp2)|(Hex & _)].
  2:{ exfalso. apply Exists_exists in Hex as (r & Hr & Hex).
      apply Exists_exists in Hex as (j & Hj & Hout).
      pose proof (fresh_size (length h) (length index1) (length arrs)) as Hsz.
      rewrite Forall_forall in Hsz. rewrite (Hsz r Hr) in Hout.
      rewrite Forall_forall in H2. by apply Hout, H2. }
  destruct (select_outcome arrs (compose_index index1 index2) h Hwf)
    as [(_ & picks3 & Hs3 & Hp3)|(Hex & _)].
  2:{ exfalso. apply Exists_exists in Hex as (a & Ha & Hex).
      apply Exists_exists in Hex as (j & Hj & Hout). apply Hout.
      rewrite Forall_forall in H1. specialize (H1 a Ha).
      pose proof (compose_index_in_range (size a) index1 index2 H1) as Hc.
      rewrite Forall_forall in Hc. by apply Hc. }
  eexists res1, _, _, _, _, _.
  split; [exact Hs1|]. split; [exact Hs2|]. split; [exact Hs3|].
  assert (Hl2 : length picks2 = length res1) by (symmetry; by eapply Forall2_length).
  assert (Hl3 : length picks3 = length arrs) by (symmetry; by eapply Forall2_length).
  unfold cells_of, arrays_of. rewrite !omap_Some_id.
  rewrite <- Hl2, fresh_flatten. rewrite <- Hl3, fresh_flatten.
  apply list_eq. intros i.
  destruct (arrs !! i) as [a|] eqn:Ha.
  2:{ apply lookup_ge_None in Ha.
      rewrite !lookup_ge_None_2; [done|lia|].
      rewrite Hl2. unfold res1. rewrite fresh_length. lia. }
  destruct (Forall2_lookup_l _ _ _ _ _ Hp1 Ha) as (p1 & Hpi1 & Hat1).
  destruct (Forall2_lookup_l _ _ _ _ _ Hp3 Ha) as (p3 & Hpi3 & Hat3).
  assert (Hr1 : res1 !! i = Some {| buffer := (length h + i)%nat;
                                    shape := [length index1] |}).
  { unfold res1. apply fresh_lookup. by eapply lookup_lt_Some. }
  destruct (Forall2_lookup_l _ _ _ _ _ Hp2 Hr1) as (p2 & Hpi2 & Hat2).
  rewrite Hpi2, Hpi3. f_equal. apply fmap_Some_inj.
  rewrite Hat2, Hat3.
  assert (flatten (h ++ picks1)
            {| buffer := (length h + i)%nat; shape := [length index1] |} = p1) as ->.
  { unfold flatten. simpl. rewrite lookup_app_r by lia.
    replace (length h + i - length h)%nat with i by lia. by rewrite Hpi1. }
  by apply at_index_compose.
Qed.

End SelectorMore.

(** ** Further properties of the splitter *)

Section SplitterMore.
Context {T X : Type}.
Variable check_fit_input :
  list ndarray → pyarg → pyarg → res (tuple_t * tuple_t * tuple_t).
Variable ShuffleSplit : gmap string pyobj → res (cv_t X).
Implicit Types (h : list (list T)) (a r : ndarray) (index : list Z)
  (args : tuple_t * tuple_t * tuple_t) (w : world T X).

Lemma well_formed_app h (extra : list (list T)) a :
  well_formed h a → well_formed (h ++ extra) a.
Proof.
  intros (cells & Hc & Hl). exists cells. split; [|done].
  by apply lookup_app_l_Some.
Qed.

Lemma flatten_app h (extra : list (list T)) a :
  (buffer a < length h)%nat → flatten (h ++ extra) a = flatten h a.
Proof. intros Ha. unfold flatten. by rewrite lookup_app_l. Qed.

Lemma select_args_grows args index h :
  ∃ extra, (select_args args index h).2 = h ++ extra.
Proof.
  destruct args as [[c d] wt]. unfold select_args.
  rewrite M_bind_run.
  destruct (select_grows (Some c) index h) as [e0 H0].
  destruct (select (Some c) index h) as [[oc|e] h1]; simpl in H0; subst h1;
    [|by eexists].
  rewrite M_bind_run.
  destruct (select_grows (Some d) index (h ++ e0)) as [e1 H1].
  destruct (select (Some d) index (h ++ e0)) as [[od|e] h2]; simpl in H1; subst h2;
    [|exists (e0 ++ e1); by rewrite app_assoc].
  rewrite M_bind_run.
  destruct (select_grows (Some wt) index ((h ++ e0) ++ e1)) as [e2 H2].
  destruct (select (Some wt) index ((h ++ e0) ++ e1)) as [[ow|e] h3];
    simpl in H2; subst h3; exists (e0 ++ e1 ++ e2); by rewrite !app_assoc.
Qed.

(** X7.  The caller's arrays are never written: whatever the outcome of
    [train_test_split], result or exception, every buffer of the store
    holds after the call the cells it held before. *)
Theorem train_test_split_keeps_store coordinates data weights kwargs w l
    (cells : list T) :
  np w !! l = Some cells →
  np (train_test_split check_fit_input ShuffleSplit
        coordinates data weights kwargs w).2 !! l = Some cells.
Proof.
  intros Hl. unfold train_test_split.
  rewrite bind_lift_run.
  destruct (check_fit_input coordinates data weights) as [args|e]; [|done].
  rewrite bind_lift_run.
  destruct (size_of_first args.1.2) as [n|e]; [|done].
  rewrite bind_lift_run.
  destruct (keywords "n_splits" (PyInt 1) kwargs) as [kw|e]; [|done].
  rewrite bind_lift_run.
  destruct (ShuffleSplit kw) as [cv|e]; [|done].
  rewrite bind_on_ext_run.
  destruct (next (split cv (arange n)) (ext w)) as [[[tr te]|e] x']; [|done].
  rewrite bind_on_np_run. cbn [np ext fst snd].
  destruct (select_args_grows args tr (np w)) as [e1 H1].
  destruct (select_args args tr (np w)) as [[train|e] h1]; simpl in H1; subst h1;
    [|by apply lookup_app_l_Some].
  rewrite bind_on_np_run. cbn [np ext fst snd].
  destruct (select_args_grows args te (np w ++ e1)) as [e2 H2].
  destruct (select_args args te (np w ++ e1)) as [[test|e] h2]; simpl in H2; subst h2;
    simpl; by do 2 apply lookup_app_l_Some.
Qed.

(** X8.  [n_splits] is not the caller's to give: once the input is
    normalized, a call with [n_splits] among the options raises
    [TypeError]; no splitter is built and the world is left as it was. *)
Theorem train_test_split_n_splits_refused coordinates data weights kwargs w args n v :
  check_fit_input coordinates data weights = Ok args →
  size_of_first args.1.2 = Ok n →
  kwargs !! "n_splits" = Some v →
  train_test_split check_fit_input ShuffleSplit coordinates data weights kwargs w
    = (Raise TypeError, w).
Proof.
  intros Hc Hn Hk. unfold train_test_split.
  rewrite bind_lift_run, Hc, bind_lift_run, Hn, bind_lift_run.
  unfold keywords. by rewrite Hk.
Qed.

(** A returning [select] on arrays of the store, in full. *)
Lemma select_Ok_arrays (arrs : list ndarray) index h (out : arrays_t) h' :
  select (Some (Some <$> arrs)) index h = (Ok out, h') →
  Forall (well_formed h) arrs →
  ∃ picks,
    out = Some (Some <$> fresh (length h) (length index) (length arrs)) ∧
    h' = h ++ picks ∧
    Forall2 (λ a p, Some <$> p = at_index (flatten h a) <$> index) arrs picks.
Proof.
  intros Hs Hwf.
  destruct (select_outcome arrs index h Hwf) as [(_ & picks & Hs' & Hp)|(_ & extra & Hs')];
    rewrite Hs' in Hs; [|done].
  injection Hs as <- <-. by exists picks.
Qed.

Lemma Forall2_flatten_app h (extra : list (list T)) index
    (arrs : list ndarray) (picks : list (list T)) :
  Forall (well_formed h) arrs →
  Forall2 (λ a p, Some <$> p = at_index (flatten (h ++ extra) a) <$> index) arrs picks →
  Forall2 (λ a p, Some <$> p = at_index (flatten h a) <$> index) arrs picks.
Proof.
  intros Hwf Hp. apply Forall2_same_length_lookup. split; [by eapply Forall2_length|].
  intros i a p Ha Hpi.
  pose proof (Forall2_lookup_lr _ _ _ _ _ _ Hp Ha Hpi) as H. simpl in H.
  pose proof (Forall_lookup_1 _ _ _ _ Hwf Ha) as Hwa.
  by rewrite flatten_app in H by by apply well_formed_lt.
Qed.

(** A slot of arrays through [select_args]: the selected arrays are on new
    consecutive buffers, somewhere past the store the call started in. *)
Lemma select_args_slot args index h (out : arrays_t * arrays_t * arrays_t) h'
    (s : nat) (arrs : list ndarray) :
  select_args args index h = (Ok out, h') →
  slots args !! s = Some (Some <$> arrs) →
  Forall (well_formed h) arrs →
  ∃ before picks after,
    h' = ((h ++ before) ++ picks) ++ after ∧
    slots out !! s =
      Some (Some (Some <$> fresh (length (h ++ before)) (length index) (length arrs))) ∧
    Forall2 (λ a p, Some <$> p = at_index (flatten h a) <$> index) arrs picks.
Proof.
  intros (h1 & h2 & E1 & E2 & E3)%select_args_Ok Hslot Hwf.
  destruct (select_grows (Some args.1.1) index h) as [e0 H0].
  rewrite E1 in H0. simpl in H0. subst h1.
  destruct (select_grows (Some args.1.2) index (h ++ e0)) as [e1 H1].
  rewrite E2 in H1. simpl in H1. subst h2.
  destruct (select_grows (Some args.2) index ((h ++ e0) ++ e1)) as [e2 H2].
  rewrite E3 in H2. simpl in H2. subst h'.
  destruct s as [|[|[|s]]]; simpl in Hslot; [| | |done]; injection Hslot as Hslot.
  - rewrite Hslot in E1.
    apply select_Ok_arrays in E1 as (picks & Ho & Hh & Hp); [|done].
    exists [], picks, (e1 ++ e2). rewrite app_nil_r.
    apply app_inv_head in Hh. subst e0.
    split; [by rewrite !app_assoc|]. split; [by simpl; rewrite Ho|done].
  - rewrite Hslot in E2.
    apply select_Ok_arrays in E2 as (picks & Ho & Hh & Hp).
    2:{ eapply Forall_impl; [exact Hwf|]. intros a. apply well_formed_app. }
    exists e0, picks, e2.
    apply app_inv_head in Hh. subst e1.
    split; [done|]. split; [by simpl; rewrite Ho|].
    by eapply Forall2_flatten_app.
  - rewrite Hslot in E3.
    apply select_Ok_arrays in E3 as (picks & Ho & Hh & Hp).
    2:{ eapply Forall_impl; [exact Hwf|]. intros a Ha.
        by do 2 apply well_formed_app. }
    exists (e0 ++ e1), picks, [].
    apply app_inv_head in Hh. subst e2.
    rewrite app_nil_r, !app_assoc.
    split; [done|]. split; [by simpl; rewrite Ho|].
    rewrite <- app_assoc in Hp. by eapply Forall2_flatten_app.
Qed.

Lemma lookup_segment (pre picks post : list (list T)) (i : nat) :
  (i < length picks)%nat →
  ((pre ++ picks) ++ post) !! (length pre + i)%nat = picks !! i.
Proof.
  intros Hi. rewrite lookup_app_l by (rewrite length_app; lia).
  rewrite lookup_app_r by lia. f_equal. lia.
Qed.

(** A slot of arrays through the two selections of [train_test_split]. *)
Lemma train_test_slot args (tr te : list Z) h h1 h2
    (train test : arrays_t * arrays_t * arrays_t) (s : nat) (arrs : list ndarray) :
  select_args args tr h = (Ok train, h1) →
  select_args args te h1 = (Ok test, h2) →
  slots args !! s = Some (Some <$> arrs) →
  Forall (well_formed h) arrs →
  ∃ pre1 picks1 post1 pre2 picks2 post2,
    h2 = ((pre1 ++ picks1) ++ post1) ∧
    h2 = ((pre2 ++ picks2) ++ post2) ∧
    (length h ≤ length pre1)%nat ∧
    (length pre1 + length picks1 ≤ length pre2)%nat ∧
    slots train !! s =
      Some (Some (Some <$> fresh (length pre1) (length tr) (length arrs))) ∧
    slots test !! s =
      Some (Some (Some <$> fresh (length pre2) (length te) (length arrs))) ∧
    Forall2 (λ a p, Some <$> p = at_index (flatten h a) <$> tr) arrs picks1 ∧
    Forall2 (λ a p, Some <$> p = at_index (flatten h a) <$> te) arrs picks2.
Proof.
  intros Htr Hte Hslot Hwf.
  destruct (select_args_slot _ _ _ _ _ _ _ Htr Hslot Hwf)
    as (b1 & p1 & a1 & -> & Hs1 & Hp1).
  assert (Hwf1 : Forall (well_formed (((h ++ b1) ++ p1) ++ a1)) arrs).
  { eapply Forall_impl; [exact Hwf|]. intros a Ha.
    by do 3 apply well_formed_app. }
  destruct (select_args_slot _ _ _ _ _ _ _ Hte Hslot Hwf1)
    as (b2 & p2 & a2 & -> & Hs2 & Hp2).
  exists (h ++ b1), p1, (a1 ++ b2 ++ p2 ++ a2), ((((h ++ b1) ++ p1) ++ a1) ++ b2), p2, a2.
  split; [by rewrite !app_assoc|]. split; [done|].
  split; [rewrite length_app; lia|]. split; [rewrite !length_app; lia|].
  split; [done|]. split; [done|]. split; [done|].
  rewrite <- !app_assoc in Hp2. by eapply Forall2_flatten_app.
Qed.

(** X5.  Nothing lost, nothing repeated: in a returning call, when the
    partition yielded splits the index sequence [0..n-1] (train and test
    indices together are a permutation of it), then for every slot that
    holds arrays of [n] elements and every array of it, the cells of the
    train array and of the test array are together a permutation of the
    flattened cells of the input array. *)
Theorem train_test_split_partition coordinates data weights kwargs w w'
    (train test : arrays_t * arrays_t * arrays_t) :
  train_test_split check_fit_input ShuffleSplit coordinates data weights kwargs w
    = (Ok (train, test), w') →
  ∃ args a rest cv tr te suspended x',
    check_fit_input coordinates data weights = Ok args ∧
    args.1.2 = Some a :: rest ∧
    ShuffleSplit (<["n_splits" := PyInt 1]> kwargs) = Ok cv ∧
    resume (split cv (arange (size a))) (ext w) = Yield (tr, te) suspended x' ∧
    (tr ++ te ≡ₚ arange (size a) →
     ∀ s (arrs : list ndarray),
       slots args !! s = Some (Some <$> arrs) →
       Forall (well_formed (np w)) arrs →
       Forall (λ b, size b = size a) arrs →
       ∃ train_s test_s : list ndarray,
         slots train !! s = Some (Some (Some <$> train_s)) ∧
         slots test !! s = Some (Some (Some <$> test_s)) ∧
         length train_s = length arrs ∧ length test_s = length arrs ∧
         ∀ i b p q, arrs !! i = Some b → train_s !! i = Some p → test_s !! i = Some q →
           flatten (np w') p ++ flatten (np w') q ≡ₚ flatten (np w) b).
Proof.
  intros (args & a & rest & cv & tr & te & suspended & x' & h1 & h2 &
          Hc & Hd & _ & Hcv & Hr & Htr & Hte & ->)%train_test_split_Ok.
  exists args, a, rest, cv, tr, te, suspended, x'.
  split; [done|]. split; [done|]. split; [done|]. split; [done|].
  intros Hperm s arrs Hslot Hwf Hsize. cbn [np].
  destruct (train_test_slot _ _ _ _ _ _ _ _ _ _ Htr Hte Hslot Hwf)
    as (pre1 & p1 & post1 & pre2 & p2 & post2 & E1 & E2 & _ & _ & Hs1 & Hs2 & Hp1 & Hp2).
  eexists _, _. split; [exact Hs1|]. split; [exact Hs2|].
  rewrite !fresh_length. split; [done|]. split; [done|].
  intros i b p q Hb Hp Hq.
  assert (Hi : (i < length arrs)%nat) by by eapply lookup_lt_Some.
  rewrite fresh_lookup in Hp, Hq by done. injection Hp as <-. injection Hq as <-.
  destruct (Forall2_lookup_l _ _ _ _ _ Hp1 Hb) as (c1 & Hc1 & Hat1).
  destruct (Forall2_lookup_l _ _ _ _ _ Hp2 Hb) as (c2 & Hc2 & Hat2).
  assert (flatten h2 {| buffer := (length pre1 + i)%nat; shape := [length tr] |} = c1)
    as ->.
  { unfold flatten. simpl. rewrite E1, lookup_segment, Hc1; [done|].
    by eapply lookup_lt_Some. }
  assert (flatten h2 {| buffer := (length pre2 + i)%nat; shape := [length te] |} = c2)
    as ->.
  { unfold flatten. simpl. rewrite E2, lookup_segment, Hc2; [done|].
    by eapply lookup_lt_Some. }
  apply fmap_Some_Permutation.
  rewrite fmap_app, Hat1, Hat2, <- fmap_app, Hperm.
  pose proof (Forall_lookup_1 _ _ _ _ Hwf Hb) as (cells & Hcells & Hl).
  pose proof (Forall_lookup_1 _ _ _ _ Hsize Hb) as Hn. simpl in Hn.
  assert (Hfl : flatten (np w) b = cells) by (unfold flatten; by rewrite Hcells).
  rewrite Hfl. assert (size a = length cells) as -> by congruence.
  by rewrite at_index_arange.
Qed.

Lemma fresh_shape (base m k : nat) : Forall (λ r, shape r = [m]) (fresh base m k).
Proof.
  apply Forall_lookup. intros i r Hi.
  assert (i < k)%nat by (apply lookup_lt_Some in Hi; by rewrite fresh_length in Hi).
  rewrite fresh_lookup in Hi by done. by injection Hi as <-.
Qed.

Lemma omap_id_None (t : tuple_t) : Forall (λ i, i = None) t → omap id t = [].
Proof. induction 1 as [|i t -> _ IH]; [done|]. by cbn. Qed.

Lemma whole_app h (extra : list (list T)) (t : tuple_t) :
  whole h t → whole (h ++ extra) t.
Proof.
  intros [(arrs & -> & Hwf)|Hnone]; [left|by right].
  exists arrs. split; [done|].
  eapply Forall_impl; [exact Hwf|]. intros a. apply well_formed_app.
Qed.

(** A whole slot through a returning [select]: the arrays returned, as
    many as the slot holds, are on the buffers that the call has added, one
    each and in order. *)
Lemma select_whole (t : tuple_t) index h (out : arrays_t) h' :
  whole h t →
  select (Some t) index h = (Ok out, h') →
  ∃ picks,
    h' = h ++ picks ∧
    buffer <$> arrays_of out = seq (length h) (length picks) ∧
    length (arrays_of out) = length (arrays_of (Some t)) ∧
    Forall (λ r, shape r = [length index]) (arrays_of out).
Proof.
  intros [(arrs & -> & Hwf)|Hnone] Hs.
  - apply select_Ok_arrays in Hs as (picks & -> & -> & Hp); [|done].
    exists picks. split; [done|].
    assert (length picks = length arrs) as Hl by (symmetry; by eapply Forall2_length).
    cbn [arrays_of]. rewrite !omap_Some_id, fresh_buffers, fresh_length, Hl.
    split; [done|]. split; [done|]. apply fresh_shape.
  - assert (out = Some t ∧ h' = h) as [-> ->].
    { destruct t as [|i t].
      - cbv in Hs. by injection Hs as <- <-.
      - rewrite select_absent in Hs; [by injection Hs as <- <-|].
        right. exists (i :: t). split; [done|].
        apply Forall_cons in Hnone as [-> _]. apply list_elem_of_here. }
    exists []. rewrite app_nil_r. cbn [arrays_of]. rewrite omap_id_None by done.
    by repeat split.
Qed.

(** The three slots, each whole, through a returning [select_args]. *)
Lemma select_args_whole args index h (out : arrays_t * arrays_t * arrays_t) h' :
  Forall (whole h) (slots args) →
  select_args args index h = (Ok out, h') →
  ∃ picks,
    h' = h ++ picks ∧
    buffer <$> all_arrays out = seq (length h) (length picks) ∧
    Forall2 (λ t o, length (arrays_of o) = length (arrays_of (Some t)))
      (slots args) (slots out) ∧
    Forall (λ r, shape r = [length index]) (all_arrays out).
Proof.
  intros Hw (h1 & h2 & E1 & E2 & E3)%select_args_Ok.
  apply Forall_cons in Hw as [W1 Hw]. apply Forall_cons in Hw as [W2 Hw].
  apply Forall_cons in Hw as [W3 _].
  apply select_whole in E1 as (p1 & -> & B1 & L1 & S1); [|done].
  apply select_whole in E2 as (p2 & -> & B2 & L2 & S2); [|by apply whole_app].
  apply select_whole in E3 as (p3 & -> & B3 & L3 & S3); [|by do 2 apply whole_app].
  exists (p1 ++ p2 ++ p3). split; [by rewrite !app_assoc|].
  unfold all_arrays. rewrite !fmap_app, B1, B2, B3, !length_app, !seq_app.
  split; [|split].
  - repeat f_equal; lia.
  - unfold slots. by repeat constructor.
  - rewrite !Forall_app. by repeat split.
Qed.

(** X6.  Train and test sets are copies of the right size.  In a returning
    call on slots that are each given as a whole (arrays of the store in
    every place, or [None] in every place), the train set and the test set
    hold, slot by slot, as many arrays as the input; the train arrays have
    as many elements as there are train indices and the test arrays as
    many as there are test indices; and all the arrays of the two sets,
    whatever their slot, are on buffers that did not exist before the
    call, no two of them on the same buffer: the train and test sets alias
    neither the input nor each other. *)
Theorem train_test_split_copies coordinates data weights kwargs w w'
    (train test : arrays_t * arrays_t * arrays_t) :
  train_test_split check_fit_input ShuffleSplit coordinates data weights kwargs w
    = (Ok (train, test), w') →
  ∃ args a rest cv tr te suspended x',
    check_fit_input coordinates data weights = Ok args ∧
    args.1.2 = Some a :: rest ∧
    ShuffleSplit (<["n_splits" := PyInt 1]> kwargs) = Ok cv ∧
    resume (split cv (arange (size a))) (ext w) = Yield (tr, te) suspended x' ∧
    (Forall (whole (np w)) (slots args) →
     Forall2 (λ t o, length (arrays_of o) = length (arrays_of (Some t)))
       (slots args) (slots train) ∧
     Forall2 (λ t o, length (arrays_of o) = length (arrays_of (Some t)))
       (slots args) (slots test) ∧
     Forall (λ r, shape r = [length tr]) (all_arrays train) ∧
     Forall (λ r, shape r = [length te]) (all_arrays test) ∧
     NoDup (buffer <$> (all_arrays train ++ all_arrays test)) ∧
     Forall (λ r, np w !! buffer r = None ∧ is_Some (np w' !! buffer r))
       (all_arrays train ++ all_arrays test)).
Proof.
  intros (args & a & rest & cv & tr & te & suspended & x' & h1 & h2 &
          Hc & Hd & _ & Hcv & Hr & Htr & Hte & ->)%train_test_split_Ok.
  exists args, a, rest, cv, tr, te, suspended, x'.
  split; [done|]. split; [done|]. split; [done|]. split; [done|].
  intros Hw. cbn [np].
  apply select_args_whole in Htr as (p1 & -> & B1 & L1 & S1); [|done].
  apply select_args_whole in Hte as (p2 & -> & B2 & L2 & S2).
  2:{ eapply Forall_impl; [exact Hw|]. intros t. apply whole_app. }
  split; [done|]. split; [done|]. split; [done|]. split; [done|].
  assert (Hb : buffer <$> (all_arrays train ++ all_arrays test)
               = seq (length (np w)) (length p1 + length p2)).
  { by rewrite fmap_app, B1, B2, length_app, seq_app. }
  split.
  - rewrite Hb. apply NoDup_seq.
  - apply Forall_forall. intros r Hin.
    apply (list_elem_of_fmap_2 buffer) in Hin. rewrite Hb in Hin.
    apply elem_of_seq in Hin.
    split; [apply lookup_ge_None; lia|].
    apply lookup_lt_is_Some. rewrite !length_app. lia.
Qed.

End SplitterMore.

(** ** The slots that the normalizer returns *)

Lemma all_of_size_Some (n : nat) (items : tuple_t) :
  Base.all_of_size n items = true → items = Some <$> omap id items.
Proof.
  induction items as [|[a|] items IH]; cbn; [done| |done].
  intros [_ H]%andb_prop. f_equal. by apply IH.
Qed.

Lemma forallb_is_none (items : tuple_t) :
  forallb is_none items = true → Forall (λ i, i = None) items.
Proof.
  induction items as [|[a|] items IH]; cbn; [constructor|done|].
  intros H. constructor; [done|by apply IH].
Qed.

(** The normalizer leaves every slot whole: coordinates and data are arrays
    in every place, and the weights are absent in every place or arrays in
    every place. *)
Lemma check_fit_input_whole {T} (h : list (list T)) coordinates data weights args :
  Base.check_fit_input coordinates data weights = Ok args →
  Forall (well_formed h) coordinates →
  Forall (well_formed h) (omap id (Base.check_data data)) →
  Forall (well_formed h) (omap id (Base.check_data weights)) →
  Forall (whole h) (slots args).
Proof.
  unfold Base.check_fit_input. intros H Hc Hd Hw.
  destruct (negb (Base.all_of_size _ (Some <$> coordinates))); [done|].
  destruct (Base.all_of_size _ (Base.check_data data)) eqn:Ed; [|done].
  cbn [negb] in H.
  assert (Wc : whole h (Some <$> coordinates)) by (left; by exists coordinates).
  assert (Wd : whole h (Base.check_data data)).
  { left. exists (omap id (Base.check_data data)). split; [|done].
    by eapply all_of_size_Some. }
  destruct (forallb is_none (Base.check_data weights)) eqn:En.
  - injection H as <-. unfold slots. cbn [fst snd].
    apply Forall_cons_2; [done|]. apply Forall_cons_2; [done|].
    apply Forall_cons_2; [|constructor]. right. by apply forallb_is_none.
  - destruct (negb (length _ =? length _)%nat); [done|].
    destruct (Base.all_of_size _ (Base.check_data weights)) eqn:Ew; [|done].
    injection H as <-. unfold slots. cbn [fst snd].
    apply Forall_cons_2; [done|]. apply Forall_cons_2; [done|].
    apply Forall_cons_2; [|constructor].
    left. exists (omap id (Base.check_data weights)). split; [|done].
    by eapply all_of_size_Some.
Qed.

(** ** Further properties of the scorer *)

Section ScorerMore.
Context {T X Sc : Type} `{!ArrayLike Sc}.
Variable check_fit_input :
  list ndarray → pyarg → pyarg → res (tuple_t * tuple_t * tuple_t).
Variable DummyClient : client_t T X Sc.
Variable KFold : gmap string pyobj → res (cv_t X).
Implicit Types (w : world T X) (estimator : estimator_t T X Sc)
  (args : tuple_t * tuple_t * tuple_t)
  (it : iterator X (list Z * list Z))
  (folds : list (list Z * list Z)) (scores : list (work_result Sc)).

Lemma score_folds_client_only estimator1 estimator2 (client : client_t T X Sc)
    args it scores w :
  (∀ train_data test_data w0,
      submit client (fit_score estimator1 train_data test_data) w0 =
      submit client (fit_score estimator2 train_data test_data) w0) →
  score_folds estimator1 client args it scores w =
  score_folds estimator2 client args it scores w.
Proof.
  intros Hsub. revert scores w. induction it as [it IH] using iterator_rest_ind.
  intros scores w. rewrite !score_folds_resume.
  destruct (resume it (ext w)) as [[train test] rest x|x|e x] eqn:Hr; try done.
  destruct (on_np (select_args args train) _) as [[train_data|e] w1]; [|done].
  destruct (on_np (select_args args test) w1) as [[test_data|e] w2]; [|done].
  rewrite Hsub.
  destruct (submit client _ w2) as [[sc|e] w3]; [|done].
  by eapply IH.
Qed.

(** X9.  The estimator is reached through the client only: when the
    client in use treats the work of two estimators alike (as a client
    does that queues the work without running it), [cross_val_score] ends
    alike with either estimator, in result and in world; the scorer itself
    never fits nor scores. *)
Theorem cross_val_score_defers_to_client estimator1 estimator2
    coordinates data weights cv (client : option (client_t T X Sc)) w :
  (∀ train_data test_data w0,
      submit (default DummyClient client) (fit_score estimator1 train_data test_data) w0 =
      submit (default DummyClient client) (fit_score estimator2 train_data test_data) w0) →
  cross_val_score check_fit_input DummyClient KFold estimator1
    coordinates data weights cv client w =
  cross_val_score check_fit_input DummyClient KFold estimator2
    coordinates data weights cv client w.
Proof.
  intros Hsub. unfold cross_val_score.
  rewrite !bind_lift_run.
  destruct (check_fit_input coordinates data weights) as [args|e]; [|done].
  destruct cv as [c|].
  - rewrite !(M_bind_run (mret c)). unfold mret, M_ret. rewrite !bind_lift_run.
    destruct (size_of_first args.1.2) as [n|e]; [|done].
    rewrite !M_bind_run.
    by rewrite (score_folds_client_only estimator1 estimator2 _ _ _ _ _ Hsub).
  - rewrite !bind_lift_run.
    destruct (KFold _) as [c|e]; [|done].
    rewrite !bind_lift_run.
    destruct (size_of_first args.1.2) as [n|e]; [|done].
    rewrite !M_bind_run.
    by rewrite (score_folds_client_only estimator1 estimator2 _ _ _ _ _ Hsub).
Qed.

(** X10.  A failing generator: when, after some folds are scored, the
    generator raises [e] on being resumed, [e] being anything but the
    [StopIteration] that ends the loop, the call ends with [e] in the
    world that left, and the results of the folds already scored are not
    returned. *)
Theorem cross_val_score_generator_failure estimator coordinates data weights cv
    (client : option (client_t T X Sc)) w args cvobj n pre scores wk itk e x :
  check_fit_input coordinates data weights = Ok args →
  match cv with
  | Some c => Ok c
  | None => KFold {[ "shuffle" := PyBool true; "random_state" := PyInt 0;
                     "n_splits" := PyInt 5 ]}
  end = Ok cvobj →
  size_of_first args.1.2 = Ok n →
  folds_scored estimator (default DummyClient client) args
    w (split cvobj (arange n)) pre scores wk itk →
  resume itk (ext wk) = Throw e x →
  e ≠ StopIteration →
  cross_val_score check_fit_input DummyClient KFold estimator
    coordinates data weights cv client w = (Raise e, {| np := np wk; ext := x |}).
Proof.
  intros Hc Hcv Hn Hpre Hr He.
  apply (cross_val_score_raises _ _ _ _ _ _ _ _ _ _ _ _ _ _ _ Hc Hcv Hn).
  rewrite (score_folds_app _ _ _ _ _ _ _ _ _ _ Hpre).
  by apply score_folds_Throw.
Qed.

Lemma select_args_index_error args (index : list Z) (h : list (list T))
    (cs : list ndarray) :
  args.1.1 = Some <$> cs →
  Forall (well_formed h) cs →
  Exists (λ c, Exists (λ j, ¬ in_range (size c) j) index) cs →
  ∃ h', select_args args index h = (Raise IndexError, h').
Proof.
  destruct args as [[c d] wt]. cbn [fst snd]. intros -> Hwf Hex.
  unfold select_args. rewrite M_bind_run.
  destruct (select_outcome cs index h Hwf) as [(Hall & _)|(_ & extra & Hs)].
  - exfalso. apply Exists_exists in Hex as (a & Ha & Hex).
    apply Exists_exists in Hex as (j & Hj & Hout). apply Hout.
    rewrite Forall_forall in Hall. specialize (Hall a Ha).
    rewrite Forall_forall in Hall. by apply Hall.
  - rewrite Hs. by eexists.
Qed.

(** X11.  A stray index: when, after some folds are scored, the generator
    yields a fold whose train index has an entry out of range for a
    coordinate array, the call ends with [IndexError]; that fold is never
    submitted, so the outside world is as the generator left it. *)
Theorem cross_val_score_index_error estimator coordinates data weights cv
    (client : option (client_t T X Sc)) w args cvobj n pre scores wk itk
    train test rest x (cs : list ndarray) :
  check_fit_input coordinates data weights = Ok args →
  match cv with
  | Some c => Ok c
  | None => KFold {[ "shuffle" := PyBool true; "random_state" := PyInt 0;
                     "n_splits" := PyInt 5 ]}
  end = Ok cvobj →
  size_of_first args.1.2 = Ok n →
  folds_scored estimator (default DummyClient client) args
    w (split cvobj (arange n)) pre scores wk itk →
  resume itk (ext wk) = Yield (train, test) rest x →
  args.1.1 = Some <$> cs →
  Forall (well_formed (np wk)) cs →
  Exists (λ c, Exists (λ j, ¬ in_range (size c) j) train) cs →
  ∃ we,
    cross_val_score check_fit_input DummyClient KFold estimator
      coordinates data weights cv client w = (Raise IndexError, we) ∧
    ext we = x.
Proof.
  intros Hc Hcv Hn Hpre Hr Hcs Hwf Hex.
  destruct (select_args_index_error args train (np wk) cs Hcs Hwf Hex) as [h' Hs].
  exists {| np := h'; ext := x |}. split; [|done].
  apply (cross_val_score_raises _ _ _ _ _ _ _ _ _ _ _ _ _ _ _ Hc Hcv Hn).
  rewrite (score_folds_app _ _ _ _ _ _ _ _ _ _ Hpre), score_folds_resume, Hr.
  unfold on_np. cbn [np ext]. by rewrite Hs.
Qed.


End ScorerMore.



(** X13.  Scoring on one split: when [train_test_split] returns the train
    and test sets and [fit_score] on them returns [s], then
    [cross_val_score] on the same input, with the one-split shuffle
    splitter built from the same options and the immediate client, returns
    the array [np.asarray([s])] of the single result [s], provided the
    generator, resumed after the scoring, is exhausted. *)
Theorem cross_val_score_of_one_split {T X Sc} `{!ArrayLike Sc}
    (check_fit_input : list ndarray → pyarg → pyarg → res (tuple_t * tuple_t * tuple_t))
    (KFold ShuffleSplit : gmap string pyobj → res (cv_t X))
    (estimator : estimator_t T X Sc) coordinates data weights kwargs
    (w w1 w2 : world T X) (train test : arrays_t * arrays_t * arrays_t) (s : Sc) :
  train_test_split check_fit_input ShuffleSplit coordinates data weights kwargs w
    = (Ok (train, test), w1) →
  fit_score estimator train test w1 = (Ok s, w2) →
  ∃ args a rest cv tr te suspended x',
    check_fit_input coordinates data weights = Ok args ∧
    args.1.2 = Some a :: rest ∧
    ShuffleSplit (<["n_splits" := PyInt 1]> kwargs) = Ok cv ∧
    resume (split cv (arange (size a))) (ext w) = Yield (tr, te) suspended x' ∧
    asarray [Value s] = Ok {| entries := [Value s]; entry_shape := shape_of s |} ∧
    ∀ x, exhausted suspended (ext w2) x →
      cross_val_score check_fit_input Utils.DummyClient KFold estimator
        coordinates data weights (Some cv) None w
        = (Ok {| entries := [Value s]; entry_shape := shape_of s |},
           {| np := np w2; ext := x |}).
Proof.
  intros (args & a & rest & cv & tr & te & suspended & x' & h1 & h2 &
          Hc & Hd & _ & Hcv & Hr & Htr & Hte & ->)%train_test_split_Ok Hfs.
  exists args, a, rest, cv, tr, te, suspended, x'.
  split; [done|]. split; [done|]. split; [done|]. split; [done|].
  split; [reflexivity|].
  intros x Hstop.
  assert (Hn : size_of_first args.1.2 = Ok (size a)) by by rewrite Hd.
  rewrite (cross_val_score_run _ _ _ _ _ _ _ (Some cv) None _ _ cv _ Hc eq_refl Hn).
  cbn [default from_option id].
  rewrite score_folds_resume, Hr.
  unfold on_np at 1. cbn [np ext]. rewrite Htr.
  unfold on_np at 1. cbn [np ext]. rewrite Hte.
  unfold Utils.DummyClient at 1. cbn [submit]. rewrite M_bind_run, Hfs.
  unfold mret, M_ret.
  by rewrite (score_folds_exhausted _ _ _ _ _ _ _ Hstop).
Qed.

(** ** The further properties at concrete inputs *)

(** [select((arange(5), arange(-3, 2)), [1, 5])]: 5 is out of range. *)
Lemma select_index_error_witness :
  (Forall (λ a, Forall (in_range (size a)) [1; 5]) arrays_5 ∧
   ∃ (res : list ndarray) (h' : list (list Z)),
     select (Some (Some <$> arrays_5)) [1; 5] heap_5 = (Ok (Some (Some <$> res)), h')) ∨
  (Exists (λ a, Exists (λ j, ¬ in_range (size a) j) [1; 5]) arrays_5 ∧
   ∃ h' : list (list Z),
     select (Some (Some <$> arrays_5)) [1; 5] heap_5 = (Raise IndexError, h')).
Proof.
  apply (select_index_error arrays_5 [1; 5] heap_5).
  repeat constructor; eexists; split; reflexivity.
Defined.

Lemma select_arange_flattens_witness :
  ∃ (res : list ndarray) (h' : list (list Z)),
    select (Some (Some <$> arrays_5)) (arange 5) heap_5 = (Ok (Some (Some <$> res)), h') ∧
    Forall (λ r, shape r = [5%nat]) res ∧
    cells_of h' (Some (Some <$> res)) = cells_of heap_5 (Some (Some <$> arrays_5)).
Proof.
  apply (select_arange_flattens arrays_5 heap_5 5).
  - repeat constructor; eexists; split; reflexivity.
  - repeat constructor.
Defined.

Lemma select_permutation_witness :
  ∃ (res : list ndarray) (h' : list (list Z)),
    select (Some (Some <$> arrays_5)) [4; 2; 0; 1; 3] heap_5
      = (Ok (Some (Some <$> res)), h') ∧
    length res = length arrays_5 ∧
    ∀ i a r, arrays_5 !! i = Some a → res !! i = Some r →
      flatten h' r ≡ₚ flatten heap_5 a.
Proof.
  apply (select_permutation arrays_5 [4; 2; 0; 1; 3] heap_5 5).
  - repeat constructor; eexists; split; reflexivity.
  - repeat constructor.
  - apply (bool_decide_unpack _). vm_compute. exact I.
Defined.

Lemma select_composes_witness :
  ∃ (res1 res2 res3 : list ndarray) (h1 h2 h3 : list (list Z)),
    select (Some (Some <$> arrays_5)) [4; 2; 0] heap_5 = (Ok (Some (Some <$> res1)), h1) ∧
    select (Some (Some <$> res1)) [-1; 0] h1 = (Ok (Some (Some <$> res2)), h2) ∧
    select (Some (Some <$> arrays_5)) (compose_index [4; 2; 0] [-1; 0]) heap_5
      = (Ok (Some (Some <$> res3)), h3) ∧
    cells_of h2 (Some (Some <$> res2)) = cells_of h3 (Some (Some <$> res3)).
Proof.
  apply (select_composes arrays_5 [4; 2; 0] [-1; 0] heap_5).
  - repeat constructor; eexists; split; reflexivity.
  - repeat constructor; vm_compute; intros [=].
  - repeat constructor; vm_compute; intros [=].
Defined.

Lemma train_test_split_keeps_store_witness :
  np (train_test_split Base.check_fit_input (doc_splitter (X := ()))
        doc_coordinates doc_data doc_weights doc_options
        {| np := doc_heap; ext := () |}).2 !! 2%nat = Some [1; 3; 5; 7].
Proof.
  apply (train_test_split_keeps_store Base.check_fit_input doc_splitter).
  reflexivity.
Defined.

Lemma train_test_split_n_splits_refused_witness :
  train_test_split Base.check_fit_input (doc_splitter (X := ()))
    doc_coordinates doc_data doc_weights (<["n_splits" := PyInt 3]> doc_options)
    {| np := doc_heap; ext := () |}
  = (Raise TypeError, {| np := doc_heap; ext := () |}).
Proof.
  eapply (train_test_split_n_splits_refused Base.check_fit_input doc_splitter);
    reflexivity.
Defined.

(** The docstring call: the first data component [1, 3, 5, 7] comes back
    as [7, 3, 1] in the train set and [5] in the test set. *)
Lemma train_test_split_partition_witness :
  ∃ train test (w' : world Z ()),
    train_test_split Base.check_fit_input doc_splitter
      doc_coordinates doc_data doc_weights doc_options {| np := doc_heap; ext := () |}
      = (Ok (train, test), w') ∧
    ∃ p q, arrays_of train.1.2 !! 0%nat = Some p ∧
           arrays_of test.1.2 !! 0%nat = Some q ∧
           flatten (np w') p ++ flatten (np w') q ≡ₚ [1; 3; 5; 7].
Proof.
  eassert (Hrun : train_test_split Base.check_fit_input (doc_splitter (X := ()))
                    doc_coordinates doc_data doc_weights doc_options
                    {| np := doc_heap; ext := () |} = (Ok (_, _), _))
    by (vm_compute; reflexivity).
  eexists _, _, _. split; [exact Hrun|].
  destruct (train_test_split_partition _ _ _ _ _ _ _ _ _ _ Hrun)
    as (args & a & rest & cv & tr & te & suspended & x' & Hc & Hd & Hcv & Hr & Hpart).
  vm_compute in Hc. injection Hc as <-.
  cbn in Hd. injection Hd as <- <-.
  cbv [doc_splitter] in Hcv. injection Hcv as <-.
  vm_compute in Hr. injection Hr as <- <- <- <-.
  destruct (Hpart ltac:(apply (bool_decide_unpack _); vm_compute; exact I)
              1%nat [doc_array 2; doc_array 3] eq_refl)
    as (train_s & test_s & Htr & Hte & _ & _ & Hcells).
  - repeat constructor; eexists; split; reflexivity.
  - repeat constructor.
  - cbn in Htr, Hte.
    destruct train_s as [|p [|p' [|]]]; try done.
    destruct test_s as [|q [|q' [|]]]; try done.
    injection Htr as <- <-. injection Hte as <- <-.
    eexists _, _. split; [reflexivity|]. split; [reflexivity|].
    exact (Hcells 0%nat _ _ _ eq_refl eq_refl eq_refl).
Defined.

(** The docstring call: the six train arrays and the six test arrays are on
    twelve new buffers. *)
Lemma train_test_split_copies_witness :
  ∃ train test (w' : world Z ()),
    train_test_split Base.check_fit_input doc_splitter
      doc_coordinates doc_data doc_weights doc_options {| np := doc_heap; ext := () |}
      = (Ok (train, test), w') ∧
    length (all_arrays train ++ all_arrays test) = 12%nat ∧
    NoDup (buffer <$> (all_arrays train ++ all_arrays test)) ∧
    Forall (λ r, doc_heap !! buffer r = None) (all_arrays train ++ all_arrays test).
Proof.
  eassert (Hrun : train_test_split Base.check_fit_input (doc_splitter (X := ()))
                    doc_coordinates doc_data doc_weights doc_options
                    {| np := doc_heap; ext := () |} = (Ok (_, _), _))
    by (vm_compute; reflexivity).
  eexists _, _, _. split; [exact Hrun|].
  destruct (train_test_split_copies _ _ _ _ _ _ _ _ _ _ Hrun)
    as (args & a & rest & cv & tr & te & suspended & x' & Hc & _ & _ & _ & Hcopies).
  destruct Hcopies as (_ & _ & _ & _ & Hnodup & Hnew).
  { apply (check_fit_input_whole doc_heap _ _ _ _ Hc);
      repeat constructor; eexists; split; reflexivity. }
  split; [reflexivity|]. split; [exact Hnodup|].
  eapply Forall_impl; [exact Hnew|]. by intros r [? _].
Defined.

(** Two folds handed to a client that runs nothing: an estimator that fits
    and one that cannot be fitted twice are scored alike. *)
Lemma cross_val_score_defers_to_client_witness :
  cross_val_score Base.check_fit_input Utils.DummyClient no_KFold counting_estimator
    doc_coordinates doc_data doc_weights (Some two_folds) (Some deferring_client)
    {| np := doc_heap; ext := 0%nat |} =
  cross_val_score Base.check_fit_input Utils.DummyClient no_KFold fit_once_estimator
    doc_coordinates doc_data doc_weights (Some two_folds) (Some deferring_client)
    {| np := doc_heap; ext := 0%nat |}.
Proof.
  apply (cross_val_score_defers_to_client Base.check_fit_input Utils.DummyClient
           no_KFold counting_estimator fit_once_estimator).
  intros train_data test_data w0. reflexivity.
Defined.

Lemma cross_val_score_generator_failure_witness :
  ∃ we : world Z nat,
    cross_val_score Base.check_fit_input Utils.DummyClient no_KFold counting_estimator
      doc_coordinates doc_data doc_weights (Some failing_folds) None
      {| np := doc_heap; ext := 0%nat |} = (Raise (Failure 2), we).
Proof.
  eexists.
  eapply (cross_val_score_generator_failure Base.check_fit_input Utils.DummyClient
            no_KFold counting_estimator doc_coordinates doc_data doc_weights
            (Some failing_folds) None {| np := doc_heap; ext := 0%nat |}
            _ failing_folds 4 [([1; 2; 3], [0])]).
  - reflexivity.
  - reflexivity.
  - reflexivity.
  - econstructor; [reflexivity|reflexivity|reflexivity|reflexivity|constructor].
  - reflexivity.
  - discriminate.
Defined.

Lemma cross_val_score_index_error_witness :
  ∃ we : world Z nat,
    cross_val_score Base.check_fit_input Utils.DummyClient no_KFold counting_estimator
      doc_coordinates doc_data doc_weights (Some stray_folds) None
      {| np := doc_heap; ext := 0%nat |} = (Raise IndexError, we) ∧
    ext we = 1%nat.
Proof.
  eapply (cross_val_score_index_error Base.check_fit_input Utils.DummyClient
            no_KFold counting_estimator doc_coordinates doc_data doc_weights
            (Some stray_folds) None {| np := doc_heap; ext := 0%nat |}
            _ stray_folds 4 [([1; 2; 3], [0])] _ _ _ [0; 2; 4] [1] _ 1%nat
            doc_coordinates).
  - reflexivity.
  - reflexivity.
  - reflexivity.
  - econstructor; [reflexivity|reflexivity|reflexivity|reflexivity|constructor].
  - reflexivity.
  - reflexivity.
  - repeat constructor; eexists; split; reflexivity.
  - apply Exists_cons_hd. apply Exists_cons_tl, Exists_cons_tl, Exists_cons_hd.
    vm_compute. intros [_ H]. discriminate H.
Defined.


(** The docstring split, scored: the counting estimator, fitted once,
    scores 1 either way. *)
Lemma cross_val_score_of_one_split_witness :
  ∃ cv (w' : world Z nat),
    doc_splitter (<["n_splits" := PyInt 1]> doc_options) = Ok cv ∧
    cross_val_score Base.check_fit_input Utils.DummyClient no_KFold counting_estimator
      doc_coordinates doc_data doc_weights (Some cv) None
      {| np := doc_heap; ext := 0%nat |}
    = (Ok {| entries := [Value 1]; entry_shape := [] |}, w').
Proof.
  eassert (Hsplit : train_test_split Base.check_fit_input (doc_splitter (X := nat))
                      doc_coordinates doc_data doc_weights doc_options
                      {| np := doc_heap; ext := 0%nat |} = (Ok (_, _), _))
    by (vm_compute; reflexivity).
  match type of Hsplit with
  | _ = (Ok (?train, ?test), ?w1) =>
      eassert (Hfit : fit_score counting_estimator train test w1 = (Ok 1, _))
        by (vm_compute; reflexivity)
  end.
  destruct (cross_val_score_of_one_split Base.check_fit_input no_KFold doc_splitter
              counting_estimator _ _ _ _ _ _ _ _ _ _ Hsplit Hfit)
    as (args & a & rest & cv & tr & te & suspended & x' & _ & _ & Hcv & Hr & _ & Hscore).
  cbv [doc_splitter] in Hcv. injection Hcv as <-.
  assert (Hsusp : suspended = iter []).
  { destruct (size a); vm_compute in Hr; by injection Hr. }
  subst suspended.
  eexists _, _. split; [reflexivity|].
  exact (Hscore _ (or_introl eq_refl)).
Defined.
